(** * Selection locator of [open_in_web.ts]

    A shallow embedding of [getSelectionPosition] (the locator that maps a
    text selection to a 1-based line/column span of a file) together with
    the JavaScript string and array primitives it relies on, followed by
    the properties of the locator.  The embedding also covers
    [getDefaultBranchName] and the part of [main] that reads the command
    line and settles the line range, with the outcomes of subprocesses,
    file reads and number conversions as parameters.

    Conventions of the embedding
    - JavaScript strings are [string]s (sequences of code units).
    - JavaScript numbers that hold line indices, columns and the hint are
      [Z]; those values are integers in every caller ([parseInt]).
    - An array read out of range yields [undefined], and a method call on
      [undefined] throws: this is the [TypeErr] outcome.
    - Loops run on fuel; a loop that exhausts it ends in [OutOfFuel], which
      is distinct from every value the source can return.
    - [Logger.warn] is modelled by the list of emitted warnings that the
      locator returns next to its result. *)

From Stdlib Require Import ZArith List String Ascii Bool Lia.
Import ListNotations.

Local Open Scope Z_scope.

(** ** Outcomes: a value, a thrown [TypeError], or exhausted fuel *)

Inductive outcome (A : Type) : Type :=
| Ok (a : A)
| TypeErr
| OutOfFuel.

Arguments Ok {A} a.
Arguments TypeErr {A}.
Arguments OutOfFuel {A}.

Definition bind {A B : Type} (m : outcome A) (k : A -> outcome B) : outcome B :=
  match m with
  | Ok a => k a
  | TypeErr => TypeErr
  | OutOfFuel => OutOfFuel
  end.

Notation "x <- m ;; k" := (bind m (fun x => k))
  (at level 61, m at next level, right associativity).

(** ** JavaScript primitives used by the locator *)

Module Js.

Definition CR : ascii := "013"%char.
Definition LF : ascii := "010"%char.

(** [s.replace(/\r\n/g, "\n")]: every CR LF pair, scanning left to right,
    becomes a single LF. *)
Fixpoint replaceCRLF (s : string) : string :=
  match s with
  | EmptyString => EmptyString
  | String c rest =>
      match rest with
      | String c' rest' =>
          if (Ascii.eqb c CR && Ascii.eqb c' LF)%bool
          then String LF (replaceCRLF rest')
          else String c (replaceCRLF rest)
      | EmptyString => String c EmptyString
      end
  end.

(** [s.split("\n")]: the pieces between line feeds; never an empty array. *)
Fixpoint split (s : string) : list string :=
  match s with
  | EmptyString => [EmptyString]
  | String c rest =>
      if Ascii.eqb c LF then EmptyString :: split rest
      else match split rest with
           | piece :: pieces => String c piece :: pieces
           | [] => [String c EmptyString]
           end
  end.

(** [line.includes(target)]: [target] starts at some offset of [line]. *)
Fixpoint includes (line target : string) : bool :=
  (prefix target line
   || match line with
      | EmptyString => false
      | String _ rest => includes rest target
      end)%bool.

(** [line.indexOf(target)]: offset of the first occurrence, or [-1]. *)
Definition indexOf (line target : string) : Z :=
  match index 0 target line with
  | Some k => Z.of_nat k
  | None => -1
  end.

(** [a[k]]: [None] stands for [undefined]. *)
Definition arrayGet (a : list string) (k : Z) : option string :=
  if k <? 0 then None else nth_error a (Z.to_nat k).

(** Receiver of a method call or property read: [undefined] throws. *)
Definition deref (v : option string) : outcome string :=
  match v with
  | Some s => Ok s
  | None => TypeErr
  end.

(** String argument of [indexOf]: [undefined] is converted to text. *)
Definition toStringArg (v : option string) : string :=
  match v with
  | Some s => s
  | None => "undefined"%string
  end.

End Js.

(** ** The locator *)

Record MatchSpan : Type := mkSpan {
  startLine : Z;
  startColumn : Z;
  endLine : Z;
  endColumn : Z
}.

Inductive Direction : Type := up | down.

Definition columnWarning : string :=
  "Could not determine column for selection, though lines matched."%string.

Section Locator.

Variable fileLines : list string.
Variable selectionLines : list string.

Definition fileLen : Z := Z.of_nat (List.length fileLines).
Definition selLen : Z := Z.of_nat (List.length selectionLines).

(** The [for] loop of [matchesAt]; [i] is the loop counter and [sel] the
    selection lines from index [i] on. *)
Fixpoint matchLines (lineIdx i : Z) (sel : list string) : outcome bool :=
  match sel with
  | [] => Ok true
  | s :: rest =>
      line <- Js.deref (Js.arrayGet fileLines (lineIdx + i)) ;;
      if negb (Js.includes line s) then Ok false
      else matchLines lineIdx (i + 1) rest
  end.

Definition matchesAt (lineIdx : Z) : outcome bool :=
  if ((lineIdx <? 0) || (lineIdx + selLen >? fileLen))%bool then Ok false
  else matchLines lineIdx 0 selectionLines.

Definition findColumn (line target : string) : Z :=
  let col := Js.indexOf line target in
  if col =? -1 then -1 else col + 1.

Definition step (direction : Direction) : Z :=
  match direction with up => -1 | down => 1 end.

Definition loopCondition (direction : Direction) (currentLineIndex : Z) : bool :=
  match direction with
  | up => currentLineIndex >=? 0
  | down => currentLineIndex <=? fileLen - selLen
  end.

(** The [for] loop of [scan].  [matchStartLine] is the variable the loop
    assigns on a match; the loop returns its value on exit. *)
Fixpoint scanLoop (fuel : nat) (direction : Direction) (currentLineIndex : Z)
    (matchStartLine : option Z) : outcome (option Z) :=
  match fuel with
  | O => OutOfFuel
  | S fuel' =>
      if loopCondition direction currentLineIndex then
        found <- matchesAt currentLineIndex ;;
        if found then Ok (Some (currentLineIndex + 1))
        else scanLoop fuel' direction (currentLineIndex + step direction)
               matchStartLine
      else Ok matchStartLine
  end.

(** Number of loop tests a scan can need: one per index between the start
    and the bound of its direction, and the final failing test. *)
Definition scanFuel (startLineIndex : Z) (direction : Direction) : nat :=
  S (Z.to_nat (match direction with
               | up => startLineIndex + 1
               | down => fileLen - selLen - startLineIndex + 1
               end)).

Definition scan (startLineIndex : Z) (direction : Direction)
    (matchStartLine : option Z) : outcome (option Z) :=
  scanLoop (scanFuel startLineIndex direction) direction startLineIndex
    matchStartLine.

(** The search part of the body: hinted scans, then the full scan.  The
    result is the final value of [matchStartLine] (1-based, or [None] for
    [null]). *)
Definition findMatchStartLine (hintLine : option Z) : outcome (option Z) :=
  matchStartLine <-
    match hintLine with
    | Some h =>
        if ((h >? 0) && (h <=? fileLen))%bool then
          let zeroBasedHintLine := h - 1 in
          m <- scan zeroBasedHintLine down None ;;
          match m with
          | None => scan (zeroBasedHintLine - 1) up m
          | Some _ => Ok m
          end
        else Ok None
    | None => Ok None
    end ;;
  match matchStartLine with
  | None => scan 0 down matchStartLine
  | Some _ => Ok matchStartLine
  end.

(** The column part of the body, from a non-null [matchStartLine]. *)
Definition resolveColumns (matchStartLine : Z)
  : outcome (list string * option MatchSpan) :=
  let actualStartLineIndex := matchStartLine - 1 in
  let actualEndLineIndex := actualStartLineIndex + selLen - 1 in
  firstFileLine <- Js.deref (Js.arrayGet fileLines actualStartLineIndex) ;;
  let startColumn :=
    findColumn firstFileLine
      (Js.toStringArg (Js.arrayGet selectionLines 0)) in
  lastFileLine <- Js.deref (Js.arrayGet fileLines actualEndLineIndex) ;;
  let endColumnOfLastSelectionLineStart :=
    findColumn lastFileLine
      (Js.toStringArg (Js.arrayGet selectionLines (selLen - 1))) in
  if ((startColumn =? -1) || (endColumnOfLastSelectionLineStart =? -1))%bool
  then Ok ([columnWarning], None)
  else
    lastSelLine <- Js.deref (Js.arrayGet selectionLines (selLen - 1)) ;;
    let endColumn :=
      endColumnOfLastSelectionLineStart
      + Z.of_nat (String.length lastSelLine) - 1 in
    Ok ([], Some {| startLine := matchStartLine;
                    startColumn := startColumn;
                    endLine := actualEndLineIndex + 1;
                    endColumn := endColumn |}).

Definition locateLines (hintLine : option Z)
  : outcome (list string * option MatchSpan) :=
  matchStartLine <- findMatchStartLine hintLine ;;
  match matchStartLine with
  | None => Ok ([], None)
  | Some l => resolveColumns l
  end.

End Locator.

(** [text.replace(/\r\n/g, "\n").split("\n")], the expression that
    produces both [fileLines] and [selectionLines]. *)
Definition linesOf (text : string) : list string :=
  Js.split (Js.replaceCRLF text).

(** [getSelectionPosition] on the decoded content of the file: the pair of
    the warnings logged and the value returned ([None] for [null]). *)
Definition getSelectionPosition (content selection : string)
    (hintLine : option Z) : outcome (list string * option MatchSpan) :=
  let fileLines := linesOf content in
  let selectionLines := linesOf selection in
  locateLines fileLines selectionLines hintLine.

(** ** Specification vocabulary *)

(** [target] occupies the offsets [k .. k + length target - 1] of [line]. *)
Definition occursAt (k : nat) (target line : string) : Prop :=
  substring k (String.length target) line = target.

(** [k] is the offset of the leftmost occurrence of [target] in [line]. *)
Definition firstOccurrence (k : nat) (target line : string) : Prop :=
  occursAt k target line /\
  forall j, (j < k)%nat -> ~ occursAt j target line.

Definition lineContains (pair : string * string) : bool :=
  Js.includes (fst pair) (snd pair).

Section Alignment.

Variable fileLines : list string.
Variable selectionLines : list string.

(** A valid alignment at 0-based index [i]: the window of the selection
    lies within the document and every document line of the window
    contains the selection line facing it. *)
Definition alignedAt (i : Z) : bool :=
  ((0 <=? i) && (i + selLen selectionLines <=? fileLen fileLines)
   && forallb lineContains
        (combine (skipn (Z.to_nat i) fileLines) selectionLines))%bool.

(** All valid alignments, in increasing order. *)
Definition alignments : list Z :=
  filter alignedAt (map Z.of_nat (seq 0 (List.length fileLines + 1))).

(** Search order: [j] is the first valid alignment at or after [c] ... *)
Definition firstFrom (c j : Z) : Prop :=
  c <= j /\ alignedAt j = true /\
  forall k, c <= k < j -> alignedAt k = false.

(** ... and [j] is the last valid alignment at or before [c]. *)
Definition lastUpTo (c j : Z) : Prop :=
  j <= c /\ alignedAt j = true /\
  forall k, j < k <= c -> alignedAt k = false.

(** The span reported for a match at 0-based index [i]: lines [i + 1] to
    [i + selLen], the 1-based column of the leftmost occurrence of the
    first selection line in document line [i], and the column of the last
    character of the leftmost occurrence of the last selection line in the
    last matched document line. *)
Definition spanOf (i : Z) (span : MatchSpan) : Prop :=
  exists firstFileLine lastFileLine firstSelLine lastSelLine a b,
    Js.arrayGet fileLines i = Some firstFileLine /\
    Js.arrayGet fileLines (i + selLen selectionLines - 1)
      = Some lastFileLine /\
    Js.arrayGet selectionLines 0 = Some firstSelLine /\
    Js.arrayGet selectionLines (selLen selectionLines - 1)
      = Some lastSelLine /\
    firstOccurrence a firstSelLine firstFileLine /\
    firstOccurrence b lastSelLine lastFileLine /\
    span = {| startLine := i + 1;
              startColumn := Z.of_nat a + 1;
              endLine := i + selLen selectionLines;
              endColumn := Z.of_nat b + 1
                           + Z.of_nat (String.length lastSelLine) - 1 |}.

(** The selection is, line for line, the block of the document that
    starts at 0-based index [i]. *)
Definition verbatimAt (i : Z) : Prop :=
  0 <= i /\
  firstn (List.length selectionLines) (skipn (Z.to_nat i) fileLines)
  = selectionLines.

End Alignment.

(** ** Sample texts *)

Definition nl : string := String Js.LF EmptyString.

Definition docTwoA : string := ("a" ++ nl ++ "a")%string.
Definition docABA : string := ("a" ++ nl ++ "b" ++ nl ++ "a")%string.
Definition docABCD : string :=
  ("a" ++ nl ++ "b" ++ nl ++ "c" ++ nl ++ "d")%string.
Definition docFooBar : string := ("foo" ++ nl ++ "bar")%string.
Definition selFooLine : string := ("foo" ++ nl)%string.
Definition docConst : string := "  const x = 1; // comment"%string.
Definition selConst : string := "const x = 1;"%string.

(** ** Line endings *)

(** The character [c] occurs in [s]. *)
Fixpoint hasChar (c : ascii) (s : string) : bool :=
  match s with
  | EmptyString => false
  | String c' rest => (Ascii.eqb c' c || hasChar c rest)%bool
  end.

Definition crlf : string := String Js.CR (String Js.LF EmptyString).

(** A text file of the given lines, with Unix and with Windows line
    separators. *)
Definition unixText (lines : list string) : string := concat nl lines.
Definition windowsText (lines : list string) : string := concat crlf lines.

Definition docAABB : string :=
  ("a" ++ nl ++ "a" ++ nl ++ "b" ++ nl ++ "b")%string.
Definition docFoo : string := "foo"%string.

(** ** The default branch *)

(** The value [runCommand] resolves to. *)
Record CommandOutput : Type := mkOutput {
  stdout : string;
  stderr : string;
  code : Z;
  success : bool
}.

(** A call of [runCommand] with [ignoreExitCode: true] either resolves to
    its output or throws (the process could not be started). *)
Inductive CommandResult : Type :=
| Returned (output : CommandOutput)
| Threw (errorMessage : string).

(** [s.split(sep)] for a separator of one character. *)
Fixpoint splitOn (sep : ascii) (s : string) : list string :=
  match s with
  | EmptyString => [EmptyString]
  | String c rest =>
      if Ascii.eqb c sep then EmptyString :: splitOn sep rest
      else match splitOn sep rest with
           | piece :: pieces => String c piece :: pieces
           | [] => [String c EmptyString]
           end
  end.

(** What is left of [s] after the prefix [p], if [s] starts with [p]. *)
Fixpoint afterPrefix (p s : string) : option string :=
  match p with
  | EmptyString => Some s
  | String a p' =>
      match s with
      | String b s' => if Ascii.eqb a b then afterPrefix p' s' else None
      | EmptyString => None
      end
  end.

(** [s.replace(/^origin\//, "")]. *)
Definition removeOriginPrefix (s : string) : string :=
  match afterPrefix "origin/" s with
  | Some rest => rest
  | None => s
  end.

(** Truthiness of a string. *)
Definition truthy (s : string) : bool :=
  negb (String.eqb s EmptyString).

Definition originHeadWarning : string :=
  "Could not determine default branch directly from origin/HEAD. Trying 'symbolic-ref'."%string.

Definition fallbackWarning : string :=
  "Still could not determine default branch. Falling back to 'main'. This might be incorrect."%string.

Definition caughtWarning (errorMessage : string) : string :=
  ("Error trying to determine default branch: " ++ errorMessage
   ++ ". Falling back to 'main'.")%string.

Section DefaultBranch.

(** The outcome of [runCommand(cmd, { ignoreExitCode: true })]. *)
Variable runCommand : list string -> CommandResult.

(** [getDefaultBranchName]: the warnings logged and the name returned. *)
Definition getDefaultBranchName : list string * string :=
  match runCommand ["git"; "rev-parse"; "--abbrev-ref"; "origin/HEAD"]%string
  with
  | Threw errorMessage => ([caughtWarning errorMessage], "main"%string)
  | Returned first =>
      if (success first && truthy (stdout first)
          && negb (String.eqb (stdout first) "origin/HEAD"))%bool
      then ([], removeOriginPrefix (stdout first))
      else
        match runCommand
                ["git"; "symbolic-ref"; "refs/remotes/origin/HEAD"]%string
        with
        | Threw errorMessage =>
            ([originHeadWarning; caughtWarning errorMessage], "main"%string)
        | Returned symbolicRefResult =>
            let fallback :=
              ([originHeadWarning; fallbackWarning], "main"%string) in
            if (success symbolicRefResult
                && truthy (stdout symbolicRefResult))%bool
            then
              let refParts := splitOn "/" (stdout symbolicRefResult) in
              match Js.arrayGet refParts
                      (Z.of_nat (List.length refParts) - 1) with
              | Some branchName =>
                  if truthy branchName then ([originHeadWarning], branchName)
                  else fallback
              | None => fallback
              end
            else fallback
        end
  end.

End DefaultBranch.

(** ** The command line of [main] *)

Inductive LogLevel : Type := INFO | WARN | ERROR | SUCCESS | DEBUG | LOG.

Record LogEntry : Type := mkLog {
  level : LogLevel;
  message : string
}.

(** A run of the script so far: still running with a value, or ended by
    [Deno.exit]; in both cases with what was logged.  [NoFuel] is the end
    of a loop of the model that exhausted its fuel. *)
Inductive Proc (A : Type) : Type :=
| Running (log : list LogEntry) (a : A)
| Exited (log : list LogEntry) (exitCode : Z)
| NoFuel.

Arguments Running {A} log a.
Arguments Exited {A} log exitCode.
Arguments NoFuel {A}.

Definition bindProc {A B : Type} (m : Proc A) (k : A -> Proc B) : Proc B :=
  match m with
  | Running log a =>
      match k a with
      | Running log' b => Running (log ++ log') b
      | Exited log' exitCode => Exited (log ++ log') exitCode
      | NoFuel => NoFuel
      end
  | Exited log exitCode => Exited log exitCode
  | NoFuel => NoFuel
  end.

Notation "x <~ m ;; k" := (bindProc m (fun x => k))
  (at level 61, m at next level, right associativity).
Notation "m ;;; k" := (bindProc m (fun _ => k))
  (at level 61, right associativity).

Definition logTo (lvl : LogLevel) (msg : string) : Proc unit :=
  Running [mkLog lvl msg] tt.

Definition exit {A : Type} (exitCode : Z) : Proc A := Exited [] exitCode.

(** The variables that the argument loop of [main] assigns. *)
Record Args : Type := mkArgs {
  branchFromArg : option string;
  useDefaultBranch : bool;
  selectionTextFromArg : option string;
  parsedLineStart : option Z;
  parsedLineEnd : option Z;
  positionalArgs : list string
}.

(** What [main] has settled when it turns to the Git remote. *)
Record Resolved : Type := mkResolved {
  parsedArgs : Args;
  filePath : option string;
  finalLineStart : option Z;
  finalLineEnd : option Z
}.

Definition initialArgs : Args :=
  mkArgs None false None None None [].

Section CommandLine.

(** The text printed by [displayHelp]. *)
Variable helpText : string.
(** [parseInt(s, 10)]: the integer read, [None] for [NaN]. *)
Variable parseInt : string -> option Z.
(** [s.trim()]. *)
Variable trim : string -> string.
(** [n.toString()] and the interpolation of a number in a template. *)
Variable numberToString : Z -> string.
(** [Deno.readFile] followed by the decoding of the bytes: the content, or
    the message of the error thrown. *)
Variable readFile : string -> string + string.
(** The message of the [TypeError] of a method call on [undefined]. *)
Variable typeErrorMessage : string.

(** [displayHelp]: logs the help text and exits with status 0. *)
Definition displayHelp {A : Type} : Proc A :=
  logTo LOG helpText ;;; exit 0.

(** The argument loop of [main].  [rawArgs] is the part of the arguments
    from index [i] on; a flag that takes a value skips it ([i++]). *)
Fixpoint parseLoop (rawArgs : list string) (st : Args) : Proc Args :=
  match rawArgs with
  | [] => Running [] st
  | arg :: rest =>
      if (String.eqb arg "--branch" || String.eqb arg "-b")%bool then
        match rest with
        | value :: rest' =>
            if negb (prefix "-" value) then
              parseLoop rest'
                (mkArgs (Some value) (useDefaultBranch st)
                   (selectionTextFromArg st) (parsedLineStart st)
                   (parsedLineEnd st) (positionalArgs st))
            else
              logTo ERROR ("Branch name missing after " ++ arg ++ " flag.") ;;;
              displayHelp
        | [] =>
            logTo ERROR ("Branch name missing after " ++ arg ++ " flag.") ;;;
            displayHelp
        end
      else if (String.eqb arg "--default-branch"
               || String.eqb arg "-d")%bool then
        parseLoop rest
          (mkArgs (branchFromArg st) true (selectionTextFromArg st)
             (parsedLineStart st) (parsedLineEnd st) (positionalArgs st))
      else if (String.eqb arg "--selection" || String.eqb arg "-s")%bool then
        match rest with
        | value :: rest' =>
            if negb (prefix "-" value) then
              if (String.length (trim value) =? 0)%nat then
                logTo ERROR
                  ("Selection text missing after " ++ arg ++ " flag.") ;;;
                parseLoop rest'
                  (mkArgs (branchFromArg st) (useDefaultBranch st) None
                     (parsedLineStart st) (parsedLineEnd st)
                     (positionalArgs st))
              else
                parseLoop rest'
                  (mkArgs (branchFromArg st) (useDefaultBranch st)
                     (Some value) (parsedLineStart st) (parsedLineEnd st)
                     (positionalArgs st))
            else
              logTo ERROR
                ("Selection text missing after " ++ arg ++ " flag.") ;;;
              displayHelp
        | [] =>
            logTo ERROR
              ("Selection text missing after " ++ arg ++ " flag.") ;;;
            displayHelp
        end
      else if (String.eqb arg "--line-start" || String.eqb arg "-L")%bool then
        match rest with
        | value :: rest' =>
            if negb (prefix "-" value) then
              match parseInt value with
              | Some n =>
                  if n <=? 0 then
                    logTo ERROR
                      ("Value for " ++ arg ++ " must be a positive number.")
                    ;;; exit 1
                  else
                    parseLoop rest'
                      (mkArgs (branchFromArg st) (useDefaultBranch st)
                         (selectionTextFromArg st) (Some n)
                         (parsedLineEnd st) (positionalArgs st))
              | None =>
                  logTo ERROR
                    ("Value for " ++ arg ++ " must be a positive number.")
                  ;;; exit 1
              end
            else
              logTo ERROR ("Line number missing after " ++ arg ++ " flag.") ;;;
              displayHelp
        | [] =>
            logTo ERROR ("Line number missing after " ++ arg ++ " flag.") ;;;
            displayHelp
        end
      else if (String.eqb arg "--line-end" || String.eqb arg "-E")%bool then
        match rest with
        | value :: rest' =>
            if negb (prefix "-" value) then
              match parseInt value with
              | Some n =>
                  if n <=? 0 then
                    logTo ERROR
                      ("Value for " ++ arg ++ " must be a positive number.")
                    ;;; exit 1
                  else
                    parseLoop rest'
                      (mkArgs (branchFromArg st) (useDefaultBranch st)
                         (selectionTextFromArg st) (parsedLineStart st)
                         (Some n) (positionalArgs st))
              | None =>
                  logTo ERROR
                    ("Value for " ++ arg ++ " must be a positive number.")
                  ;;; exit 1
              end
            else
              logTo ERROR ("Line number missing after " ++ arg ++ " flag.") ;;;
              displayHelp
        | [] =>
            logTo ERROR ("Line number missing after " ++ arg ++ " flag.") ;;;
            displayHelp
        end
      else
        parseLoop rest
          (mkArgs (branchFromArg st) (useDefaultBranch st)
             (selectionTextFromArg st) (parsedLineStart st)
             (parsedLineEnd st) (positionalArgs st ++ [arg]))
  end.

(** [main] from its first statement to the end of the argument loop. *)
Definition parseArguments (rawArgs : list string) : Proc Args :=
  (if (existsb (String.eqb "-h") rawArgs
       || existsb (String.eqb "--help") rawArgs)%bool
   then displayHelp else Running [] tt) ;;;
  parseLoop rawArgs initialArgs.

(** [main] from the end of the argument loop to the lookup of the Git
    remote: the checks of the arguments and the search of the selection. *)
Definition resolveLineRange (a : Args) : Proc Resolved :=
  let path := nth_error (positionalArgs a) 0 in
  (if (1 <? List.length (positionalArgs a))%nat then
     logTo ERROR
       "Too many file path arguments provided. Only one is allowed." ;;;
     displayHelp
   else Running [] tt) ;;;
  (match parsedLineEnd a, parsedLineStart a with
   | Some _, None =>
       logTo ERROR
         "--line-end can only be used if --line-start is also provided." ;;;
       exit 1
   | _, _ => Running [] tt
   end) ;;;
  (match parsedLineStart a, parsedLineEnd a with
   | Some lineStart, Some lineEnd =>
       if lineEnd <? lineStart then
         logTo ERROR
           ("--line-end (" ++ numberToString lineEnd
            ++ ") must be >= --line-start (" ++ numberToString lineStart
            ++ ").") ;;;
         exit 1
       else Running [] tt
   | _, _ => Running [] tt
   end) ;;;
  match selectionTextFromArg a with
  | Some selection =>
      match path with
      | Some file =>
          if truthy file then
            logTo INFO ("Attempting to find selection in file: " ++ file) ;;;
            match readFile file with
            | inl content =>
                match getSelectionPosition content selection
                        (parsedLineStart a) with
                | Ok (warnings, Some selectionRange) =>
                    Running (map (mkLog WARN) warnings) tt ;;;
                    logTo SUCCESS
                      ("Selection found: lines "
                       ++ numberToString (startLine selectionRange) ++ "-"
                       ++ numberToString (endLine selectionRange)
                       ++ ", cols "
                       ++ numberToString (startColumn selectionRange) ++ "-"
                       ++ numberToString (endColumn selectionRange)) ;;;
                    Running []
                      (mkResolved a path
                         (Some (startLine selectionRange))
                         (Some (endLine selectionRange)))
                | Ok (warnings, None) =>
                    Running (map (mkLog WARN) warnings) tt ;;;
                    logTo ERROR
                      ("Selection text not found in file: " ++ file) ;;;
                    exit 1
                | TypeErr =>
                    logTo ERROR
                      ("Error reading or processing file for selection: "
                       ++ file) ;;;
                    logTo ERROR typeErrorMessage ;;;
                    exit 1
                | OutOfFuel => NoFuel
                end
            | inr errorMessage =>
                logTo ERROR
                  ("Error reading or processing file for selection: "
                   ++ file) ;;;
                logTo ERROR errorMessage ;;;
                exit 1
            end
          else
            logTo ERROR
              "--selection flag requires a FILE_PATH to be specified." ;;;
            exit 1
      | None =>
          logTo ERROR
            "--selection flag requires a FILE_PATH to be specified." ;;;
          exit 1
      end
  | None =>
      match parsedLineStart a, path with
      | Some _, None =>
          logTo ERROR
            "--line-start can only be used if a <file_path> is also provided."
          ;;; exit 1
      | _, _ =>
          Running [] (mkResolved a path (parsedLineStart a) (parsedLineEnd a))
      end
  end.

(** [main] up to the lookup of the Git remote. *)
Definition mainLineRange (rawArgs : list string) : Proc Resolved :=
  a <~ parseArguments rawArgs ;; resolveLineRange a.

End CommandLine.

(** ** Sample environments *)


(** A repository whose [origin/HEAD] names [origin/main]. *)
Definition sampleGitMain (cmd : list string) : CommandResult :=
  Returned (mkOutput "origin/main" EmptyString 0 true).

Definition sampleParseInt (s : string) : option Z :=
  if String.eqb s "2" then Some 2
  else if String.eqb s "3" then Some 3
  else None.

Definition sampleTrim (s : string) : string := s.

Definition sampleNumberToString (n : Z) : string :=
  if n =? 1 then "1" else if n =? 2 then "2" else "3".

Definition sampleReadFile (file : string) : string + string :=
  if String.eqb file "notes.txt" then inl docABCD
  else inr "No such file or directory"%string.

Definition sampleCommandLine : list string :=
  ["notes.txt"; "-L"; "3"; "-s"; "a"]%string.

Definition sampleArgs : Args :=
  mkArgs None false (Some "a"%string) (Some 3) None ["notes.txt"%string].

Definition sampleResolved : Resolved :=
  mkResolved sampleArgs (Some "notes.txt"%string) (Some 1) (Some 1).

(** ** Validity of parsed arguments *)

(** No value of a flag starts with a dash, a selection is not blank, and
    the line numbers are positive. *)
Definition validArgs (trim : string -> string) (a : Args) : Prop :=
  (forall b, branchFromArg a = Some b -> prefix "-" b = false) /\
  (forall s, selectionTextFromArg a = Some s ->
     prefix "-" s = false /\ String.length (trim s) <> 0%nat) /\
  (forall n, parsedLineStart a = Some n -> 1 <= n) /\
  (forall n, parsedLineEnd a = Some n -> 1 <= n).

Definition valueFlags : list string :=
  ["--branch"; "-b"; "--selection"; "-s";
   "--line-start"; "-L"; "--line-end"; "-E"]%string.

(** ** Facts about the JavaScript primitives *)

Lemma split_nonempty (s : string) : Js.split s <> [].
Proof.
  induction s as [|c rest IH]; simpl; [discriminate|].
  destruct (Ascii.eqb c Js.LF); [discriminate|].
  destruct (Js.split rest); discriminate.
Qed.

Lemma includes_index (line target : string) :
  Js.includes line target
  = match index 0 target line with Some _ => true | None => false end.
Proof.
  induction line as [|b rest IH].
  - destruct target; reflexivity.
  - cbn [Js.includes index]. rewrite IH.
    destruct (prefix target (String b rest)); [reflexivity|].
    destruct (index 0 target rest); reflexivity.
Qed.

Lemma includes_indexOf (line target : string) :
  Js.includes line target = true <-> Js.indexOf line target <> -1.
Proof.
  rewrite includes_index. unfold Js.indexOf.
  destruct (index 0 target line); split; intros H; try lia; try reflexivity;
    try discriminate; congruence.
Qed.

Lemma index_firstOccurrence (line target : string) (k : nat) :
  index 0 target line = Some k -> firstOccurrence k target line.
Proof.
  intros H. split.
  - exact (index_correct1 _ _ _ _ H).
  - intros j Hj. apply (index_correct2 _ _ _ _ H); lia.
Qed.

Lemma includes_findColumn (line target : string) :
  Js.includes line target = true ->
  exists k, index 0 target line = Some k /\
            findColumn line target = Z.of_nat k + 1.
Proof.
  rewrite includes_index. unfold findColumn, Js.indexOf.
  destruct (index 0 target line) as [k|]; [|discriminate].
  intros _. exists k. split; [reflexivity|].
  destruct (Z.of_nat k =? -1) eqn:E; [lia|reflexivity].
Qed.

Lemma findColumn_found (line target : string) :
  Js.includes line target = true -> findColumn line target <> -1.
Proof.
  intros H. destruct (includes_findColumn _ _ H) as [k [_ ->]]. lia.
Qed.

Lemma prefix_refl (s : string) : prefix s s = true.
Proof.
  induction s as [|c s IH]; simpl; [reflexivity|].
  destruct (ascii_dec c c); [exact IH|congruence].
Qed.

Lemma includes_refl (s : string) : Js.includes s s = true.
Proof.
  destruct s; cbn [Js.includes]; rewrite prefix_refl; reflexivity.
Qed.

Lemma includes_empty (line : string) : Js.includes line EmptyString = true.
Proof. destruct line; reflexivity. Qed.

(** ** [matchesAt] decides valid alignments and never throws *)

Lemma skipn_nth_error {A : Type} (l : list A) (n : nat) (x : A) :
  nth_error l n = Some x -> skipn n l = x :: skipn (S n) l.
Proof.
  revert l; induction n as [|n IH]; intros [|y l] H; try discriminate.
  - injection H as ->. reflexivity.
  - cbn [nth_error] in H. change (skipn n l = x :: skipn (S n) l). auto.
Qed.

Lemma forallb_combine_nth {A B : Type} (f : A * B -> bool)
    (xs : list A) (ys : list B) :
  (List.length ys <= List.length xs)%nat ->
  (forallb f (combine xs ys) = true <->
   forall k y, nth_error ys k = Some y ->
     exists x, nth_error xs k = Some x /\ f (x, y) = true).
Proof.
  revert xs; induction ys as [|y ys IH]; intros xs Hlen.
  - rewrite combine_nil. split; [|reflexivity].
    intros _ [|k] z H; discriminate.
  - destruct xs as [|x xs]; [simpl in Hlen; lia|].
    simpl in Hlen. cbn [combine forallb].
    rewrite andb_true_iff, (IH xs) by lia. split.
    + intros [Hx Hrest] [|k] z Hz.
      * injection Hz as <-. exists x. split; [reflexivity|exact Hx].
      * exact (Hrest k z Hz).
    + intros H. split.
      * destruct (H 0%nat y eq_refl) as [x' [Hx' Hf]].
        injection Hx' as <-. exact Hf.
      * intros k z Hz. exact (H (S k) z Hz).
Qed.

Section LocatorFacts.

Variable fileLines : list string.
Variable selectionLines : list string.

Local Abbreviation FL := (fileLen fileLines).
Local Abbreviation SL := (selLen selectionLines).
Local Abbreviation aligned := (alignedAt fileLines selectionLines).

Lemma alignedAt_bounds (i : Z) :
  aligned i = true -> 0 <= i /\ i + SL <= FL.
Proof.
  unfold alignedAt. rewrite !andb_true_iff. lia.
Qed.

Lemma alignedAt_spec (i : Z) :
  aligned i = true <->
  0 <= i /\ i + SL <= FL /\
  forall k s, nth_error selectionLines k = Some s ->
    exists line, nth_error fileLines (Z.to_nat i + k) = Some line /\
                 Js.includes line s = true.
Proof.
  unfold alignedAt, fileLen, selLen.
  rewrite !andb_true_iff, Z.leb_le, Z.leb_le.
  split.
  - intros [[H0 Hb] Hall]. split; [exact H0|]. split; [exact Hb|].
    rewrite forallb_combine_nth in Hall by (rewrite length_skipn; lia).
    intros k s Hs. destruct (Hall k s Hs) as [line [Hl Hf]].
    rewrite nth_error_skipn in Hl. exists line. split; assumption.
  - intros [H0 [Hb Hall]]. split; [split; assumption|].
    apply forallb_combine_nth; [rewrite length_skipn; lia|].
    intros k s Hs. destruct (Hall k s Hs) as [line [Hl Hf]].
    exists line. rewrite nth_error_skipn. split; assumption.
Qed.

Lemma matchLines_combine (lineIdx : Z) (sel : list string) (i : Z) :
  0 <= lineIdx -> 0 <= i ->
  lineIdx + i + Z.of_nat (List.length sel) <= FL ->
  matchLines fileLines lineIdx i sel
  = Ok (forallb lineContains
          (combine (skipn (Z.to_nat (lineIdx + i)) fileLines) sel)).
Proof.
  intros Hl. revert i. induction sel as [|s rest IH]; intros i Hi Hb.
  - rewrite combine_nil. reflexivity.
  - cbn [List.length] in Hb. unfold fileLen in *.
    assert (Hnth : exists line,
      nth_error fileLines (Z.to_nat (lineIdx + i)) = Some line).
    { destruct (nth_error fileLines (Z.to_nat (lineIdx + i))) eqn:E;
        [eauto|]. apply nth_error_None in E. lia. }
    destruct Hnth as [line Hline].
    cbn [matchLines]. unfold Js.arrayGet.
    destruct (lineIdx + i <? 0) eqn:Hneg; [lia|].
    rewrite Hline. cbn [Js.deref bind].
    rewrite (skipn_nth_error _ _ _ Hline). cbn [combine forallb].
    unfold lineContains at 1. cbn [fst snd].
    destruct (Js.includes line s); cbn [negb andb]; [|reflexivity].
    rewrite IH by lia.
    replace (Z.to_nat (lineIdx + (i + 1)))
      with (S (Z.to_nat (lineIdx + i))) by lia.
    reflexivity.
Qed.

(** The source's containment test computes exactly the valid-alignment
    predicate, and its array reads stay in range. *)
Lemma matchesAt_alignedAt (i : Z) : matchesAt fileLines selectionLines i = Ok (aligned i).
Proof.
  unfold matchesAt, alignedAt.
  destruct (i <? 0) eqn:H0; cbn [orb].
  - replace (0 <=? i) with false by lia. reflexivity.
  - destruct (i + SL >? FL) eqn:Hb.
    + replace (0 <=? i) with true by lia.
      replace (i + SL <=? FL) with false by lia. reflexivity.
    + replace (0 <=? i) with true by lia.
      replace (i + SL <=? FL) with true by lia. cbn [andb].
      rewrite matchLines_combine; unfold selLen in *; try lia.
      rewrite Z.add_0_r. reflexivity.
Qed.

Lemma alignments_In (i : Z) : In i (alignments fileLines selectionLines) <-> aligned i = true.
Proof.
  unfold alignments. rewrite filter_In. split; [tauto|].
  intros H. split; [|exact H].
  apply alignedAt_bounds in H. apply in_map_iff.
  exists (Z.to_nat i). split; [lia|]. apply in_seq.
  unfold fileLen, selLen in H. lia.
Qed.

Lemma verbatimAt_alignedAt (i : Z) :
  selectionLines <> [] ->
  verbatimAt fileLines selectionLines i -> aligned i = true.
Proof.
  intros Hne [H0 Hv]. apply alignedAt_spec.
  assert (Hlen : (List.length selectionLines
                  <= List.length fileLines - Z.to_nat i)%nat).
  { rewrite <- (length_skipn (Z.to_nat i) fileLines).
    rewrite <- Hv at 1. rewrite length_firstn. lia. }
  split; [exact H0|]. split.
  - unfold fileLen, selLen.
    destruct selectionLines as [|s0 rest]; [congruence|].
    cbn [List.length] in *. lia.
  - intros k s Hs. exists s. split; [|apply includes_refl].
    rewrite <- Hv in Hs. rewrite nth_error_firstn in Hs.
    destruct (Nat.ltb k (List.length selectionLines)); [|discriminate].
    rewrite nth_error_skipn in Hs. exact Hs.
Qed.

(** ** The scans *)

Local Abbreviation loop := (scanLoop fileLines selectionLines).
Local Abbreviation scanAt := (scan fileLines selectionLines).
Local Abbreviation search := (findMatchStartLine fileLines selectionLines).

Lemma scanLoop_down (fuel : nat) (c : Z) (st : option Z) :
  (Z.to_nat (FL - SL - c + 1) < fuel)%nat ->
  (exists j, firstFrom fileLines selectionLines c j /\
             loop fuel down c st = Ok (Some (j + 1)))
  \/ ((forall k, c <= k -> aligned k = false) /\
      loop fuel down c st = Ok st).
Proof.
  revert c. induction fuel as [|fuel IH]; intros c Hfuel; [lia|].
  cbn [scanLoop loopCondition].
  destruct (c <=? FL - SL) eqn:Hc.
  - rewrite matchesAt_alignedAt. cbn [bind].
    destruct (aligned c) eqn:Ha.
    + left. exists c. split; [|reflexivity].
      split; [lia|]. split; [exact Ha|]. intros k Hk. lia.
    + cbn [step]. destruct (IH (c + 1)) as [[j [[Hj [Haj Hmin]] Hr]]|[Hno Hr]];
        [lia| |].
      * left. exists j. split; [|exact Hr].
        split; [lia|]. split; [exact Haj|].
        intros k Hk. destruct (Z.eq_dec k c) as [->|Hne]; [exact Ha|].
        apply Hmin. lia.
      * right. split; [|exact Hr].
        intros k Hk. destruct (Z.eq_dec k c) as [->|Hne]; [exact Ha|].
        apply Hno. lia.
  - right. split; [|reflexivity].
    intros k Hk. destruct (aligned k) eqn:Ha; [|reflexivity].
    apply alignedAt_bounds in Ha. lia.
Qed.

Lemma scanLoop_up (fuel : nat) (c : Z) (st : option Z) :
  (Z.to_nat (c + 1) < fuel)%nat ->
  (exists j, lastUpTo fileLines selectionLines c j /\
             loop fuel up c st = Ok (Some (j + 1)))
  \/ ((forall k, k <= c -> aligned k = false) /\
      loop fuel up c st = Ok st).
Proof.
  revert c. induction fuel as [|fuel IH]; intros c Hfuel; [lia|].
  cbn [scanLoop loopCondition].
  destruct (c >=? 0) eqn:Hc.
  - rewrite matchesAt_alignedAt. cbn [bind].
    destruct (aligned c) eqn:Ha.
    + left. exists c. split; [|reflexivity].
      split; [lia|]. split; [exact Ha|]. intros k Hk. lia.
    + cbn [step]. destruct (IH (c + -1)) as [[j [[Hj [Haj Hmax]] Hr]]|[Hno Hr]];
        [lia| |].
      * left. exists j. split; [|exact Hr].
        split; [lia|]. split; [exact Haj|].
        intros k Hk. destruct (Z.eq_dec k c) as [->|Hne]; [exact Ha|].
        apply Hmax. lia.
      * right. split; [|exact Hr].
        intros k Hk. destruct (Z.eq_dec k c) as [->|Hne]; [exact Ha|].
        apply Hno. lia.
  - right. split; [|reflexivity].
    intros k Hk. destruct (aligned k) eqn:Ha; [|reflexivity].
    apply alignedAt_bounds in Ha. lia.
Qed.

(** Both scans run within their fuel: they return, with the first valid
    alignment of their search order or with [matchStartLine] untouched. *)
Lemma scan_down (c : Z) (st : option Z) :
  (exists j, firstFrom fileLines selectionLines c j /\
             scanAt c down st = Ok (Some (j + 1)))
  \/ ((forall k, c <= k -> aligned k = false) /\ scanAt c down st = Ok st).
Proof. apply scanLoop_down. unfold scanFuel. lia. Qed.

Lemma scan_up (c : Z) (st : option Z) :
  (exists j, lastUpTo fileLines selectionLines c j /\
             scanAt c up st = Ok (Some (j + 1)))
  \/ ((forall k, k <= c -> aligned k = false) /\ scanAt c up st = Ok st).
Proof. apply scanLoop_up. unfold scanFuel. lia. Qed.

(** More fuel than a scan needs changes nothing. *)
Lemma scanLoop_fuel (fuel fuel0 : nat) (d : Direction) (c : Z)
    (st : option Z) :
  (Z.to_nat (match d with
             | up => c + 1
             | down => FL - SL - c + 1
             end) < fuel0 <= fuel)%nat ->
  loop fuel d c st = loop fuel0 d c st.
Proof.
  revert fuel0 c. induction fuel as [|fuel IH]; intros fuel0 c H; [lia|].
  destruct fuel0 as [|fuel0]; [lia|].
  cbn [scanLoop].
  destruct (loopCondition fileLines selectionLines d c) eqn:Hc;
    [|reflexivity].
  destruct (matchesAt fileLines selectionLines c) as [[|]| |];
    cbn [bind]; try reflexivity.
  apply IH. destruct d; cbn [loopCondition step] in *; lia.
Qed.

(** ** The search order *)

Lemma firstFrom_unique (c j j' : Z) :
  firstFrom fileLines selectionLines c j ->
  firstFrom fileLines selectionLines c j' -> j = j'.
Proof.
  intros [Hj [Ha Hm]] [Hj' [Ha' Hm']].
  destruct (Z.lt_trichotomy j j') as [Hlt|[Heq|Hgt]]; [|exact Heq|].
  - specialize (Hm' j ltac:(lia)). congruence.
  - specialize (Hm j' ltac:(lia)). congruence.
Qed.

Lemma search_nohint : search None = scanAt 0 down None.
Proof. reflexivity. Qed.

Lemma search_out_of_range (h : Z) :
  h < 1 \/ h > FL -> search (Some h) = search None.
Proof.
  intros H. unfold findMatchStartLine.
  replace ((h >? 0) && (h <=? FL))%bool with false; [reflexivity|].
  symmetry. apply andb_false_iff. lia.
Qed.

Lemma search_in_range (h : Z) :
  1 <= h <= FL ->
  search (Some h) =
  (m <- (m <- scanAt (h - 1) down None ;;
         match m with
         | None => scanAt (h - 1 - 1) up m
         | Some _ => Ok m
         end) ;;
   match m with
   | None => scanAt 0 down m
   | Some _ => Ok m
   end).
Proof.
  intros H. unfold findMatchStartLine.
  replace ((h >? 0) && (h <=? FL))%bool with true; [reflexivity|].
  symmetry. apply andb_true_iff. lia.
Qed.

(** Without a usable hint the result is the first valid alignment. *)
Lemma search_first (j : Z) :
  firstFrom fileLines selectionLines 0 j -> search None = Ok (Some (j + 1)).
Proof.
  intros Hj. rewrite search_nohint.
  destruct (scan_down 0 None) as [[j' [Hj' Hr]]|[Hno _]].
  - rewrite Hr, (firstFrom_unique _ _ _ Hj Hj'). reflexivity.
  - destruct Hj as [H0 [Ha _]]. rewrite Hno in Ha by lia. discriminate.
Qed.

(** A hint on a valid alignment selects it. *)
Lemma search_at_hint (p : Z) :
  selectionLines <> [] -> aligned p = true ->
  search (Some (p + 1)) = Ok (Some (p + 1)).
Proof.
  intros Hne Ha. pose proof (alignedAt_bounds _ Ha) as Hb.
  assert (1 <= SL).
  { unfold selLen. destruct selectionLines; [congruence|]. simpl. lia. }
  rewrite search_in_range by lia.
  replace (p + 1 - 1) with p by lia.
  destruct (scan_down p None) as [[j [Hj Hr]]|[Hno _]].
  - rewrite Hr. cbn [bind].
    destruct Hj as [Hpj [_ Hmin]].
    destruct (Z.eq_dec j p) as [->|Hne']; [reflexivity|].
    rewrite Hmin in Ha by lia. discriminate.
  - rewrite Hno in Ha by lia. discriminate.
Qed.

(** With a single valid alignment every search order ends on it. *)
Lemma search_unique (p : Z) (hint : option Z) :
  aligned p = true -> (forall k, aligned k = true -> k = p) ->
  search hint = Ok (Some (p + 1)).
Proof.
  intros Ha Huniq.
  assert (Hfull : scanAt 0 down None = Ok (Some (p + 1))).
  { destruct (scan_down 0 None) as [[j [[_ [Haj _]] Hr]]|[Hno _]].
    - rewrite Hr, (Huniq j Haj). reflexivity.
    - apply alignedAt_bounds in Ha as Hb.
      rewrite Hno in Ha by lia. discriminate. }
  destruct hint as [h|]; [|exact Hfull].
  destruct (Z_lt_dec h 1) as [Hlo|Hlo];
    [rewrite search_out_of_range by lia; exact Hfull|].
  destruct (Z_gt_dec h FL) as [Hhi|Hhi];
    [rewrite search_out_of_range by lia; exact Hfull|].
  rewrite search_in_range by lia.
  destruct (scan_down (h - 1) None) as [[j [[_ [Haj _]] Hr]]|[Hno Hr]];
    rewrite Hr; cbn [bind].
  - rewrite (Huniq j Haj). reflexivity.
  - destruct (scan_up (h - 1 - 1) None) as [[j [[_ [Haj _]] Hr']]|[Hno' Hr']];
      rewrite Hr'; cbn [bind].
    + rewrite (Huniq j Haj). reflexivity.
    + exact Hfull.
Qed.

(** Without any valid alignment every search order ends on [null]. *)
Lemma search_none (hint : option Z) :
  (forall k, aligned k = false) -> search hint = Ok None.
Proof.
  intros Hno.
  assert (Hscan : forall c d, scanAt c d None = Ok None).
  { intros c [|].
    - destruct (scan_up c None) as [[j [[_ [Haj _]] _]]|[_ Hr]];
        [rewrite Hno in Haj; discriminate|exact Hr].
    - destruct (scan_down c None) as [[j [[_ [Haj _]] _]]|[_ Hr]];
        [rewrite Hno in Haj; discriminate|exact Hr]. }
  destruct hint as [h|]; [|apply Hscan].
  destruct (Z_lt_dec h 1) as [Hlo|Hlo];
    [rewrite search_out_of_range by lia; apply Hscan|].
  destruct (Z_gt_dec h FL) as [Hhi|Hhi];
    [rewrite search_out_of_range by lia; apply Hscan|].
  rewrite search_in_range by lia.
  rewrite Hscan; cbn [bind]. rewrite Hscan; cbn [bind]. apply Hscan.
Qed.

(** The search always returns, and a line it returns is a valid
    alignment. *)
Lemma search_sound (hint : option Z) :
  exists r, search hint = Ok r /\
    match r with
    | Some l => aligned (l - 1) = true
    | None => forall k, aligned k = false
    end.
Proof.
  assert (Hfull : exists r, scanAt 0 down None = Ok r /\
    match r with
    | Some l => aligned (l - 1) = true
    | None => forall k, aligned k = false
    end).
  { destruct (scan_down 0 None) as [[j [[_ [Haj _]] Hr]]|[Hno Hr]].
    - exists (Some (j + 1)). split; [exact Hr|].
      replace (j + 1 - 1) with j by lia. exact Haj.
    - exists None. split; [exact Hr|].
      intros k. destruct (aligned k) eqn:Ha; [|reflexivity].
      apply alignedAt_bounds in Ha as Hb. rewrite Hno in Ha by lia.
      discriminate. }
  destruct hint as [h|]; [|exact Hfull].
  destruct (Z_lt_dec h 1) as [Hlo|Hlo];
    [rewrite search_out_of_range by lia; exact Hfull|].
  destruct (Z_gt_dec h FL) as [Hhi|Hhi];
    [rewrite search_out_of_range by lia; exact Hfull|].
  rewrite search_in_range by lia.
  destruct (scan_down (h - 1) None) as [[j [[_ [Haj _]] Hr]]|[Hno Hr]];
    rewrite Hr; cbn [bind].
  - exists (Some (j + 1)). split; [reflexivity|].
    replace (j + 1 - 1) with j by lia. exact Haj.
  - destruct (scan_up (h - 1 - 1) None) as [[j [[_ [Haj _]] Hr']]|[Hno' Hr']];
      rewrite Hr'; cbn [bind].
    + exists (Some (j + 1)). split; [reflexivity|].
      replace (j + 1 - 1) with j by lia. exact Haj.
    + exact Hfull.
Qed.

(** ** The columns *)

Lemma arrayGet_nth (a : list string) (k : nat) :
  Js.arrayGet a (Z.of_nat k) = nth_error a k.
Proof.
  unfold Js.arrayGet. destruct (Z.of_nat k <? 0) eqn:E;
    [apply Z.ltb_lt in E; lia|].
  rewrite Nat2Z.id. reflexivity.
Qed.

(** On a valid alignment the four array reads of the column part are in
    range, and the lines read contain the selection lines searched. *)
Lemma aligned_first_last (i : Z) :
  selectionLines <> [] -> aligned i = true ->
  exists firstFileLine lastFileLine firstSelLine lastSelLine,
    Js.arrayGet fileLines i = Some firstFileLine /\
    Js.arrayGet fileLines (i + SL - 1) = Some lastFileLine /\
    Js.arrayGet selectionLines 0 = Some firstSelLine /\
    Js.arrayGet selectionLines (SL - 1) = Some lastSelLine /\
    Js.includes firstFileLine firstSelLine = true /\
    Js.includes lastFileLine lastSelLine = true.
Proof.
  intros Hne Ha.
  pose proof (alignedAt_bounds _ Ha) as [H0 Hb].
  apply alignedAt_spec in Ha. destruct Ha as [_ [_ Hall]].
  assert (Hlen : (0 < List.length selectionLines)%nat).
  { destruct selectionLines; [congruence|simpl; lia]. }
  destruct (nth_error selectionLines 0) as [s0|] eqn:Es0;
    [|apply nth_error_None in Es0; lia].
  destruct (nth_error selectionLines (List.length selectionLines - 1))
    as [sl|] eqn:Esl; [|apply nth_error_None in Esl; lia].
  destruct (Hall _ _ Es0) as [l1 [El1 Hin1]].
  destruct (Hall _ _ Esl) as [l2 [El2 Hin2]].
  exists l1, l2, s0, sl. repeat split; try assumption.
  - rewrite <- (Z2Nat.id i) by lia. rewrite arrayGet_nth.
    rewrite Nat.add_0_r in El1. exact El1.
  - replace (i + SL - 1)
      with (Z.of_nat (Z.to_nat i + (List.length selectionLines - 1)))
      by (unfold selLen; lia).
    rewrite arrayGet_nth. exact El2.
  - replace (SL - 1) with (Z.of_nat (List.length selectionLines - 1))
      by (unfold selLen; lia).
    rewrite arrayGet_nth. exact Esl.
Qed.

(** Hence both column searches succeed: the guard of the column anomaly
    is not taken. *)
Lemma resolveColumns_aligned (i : Z) :
  selectionLines <> [] -> aligned i = true ->
  exists span,
    resolveColumns fileLines selectionLines (i + 1) = Ok ([], Some span) /\
    spanOf fileLines selectionLines i span.
Proof.
  intros Hne Ha.
  destruct (aligned_first_last i Hne Ha)
    as (l1 & l2 & s0 & sl & G1 & G2 & G3 & G4 & Hin1 & Hin2).
  destruct (includes_findColumn _ _ Hin1) as [a [Ia Ca]].
  destruct (includes_findColumn _ _ Hin2) as [b [Ib Cb]].
  eexists. split.
  - unfold resolveColumns.
    replace (i + 1 - 1) with i by lia.
    rewrite G1, G3, G2, G4. cbn [Js.deref Js.toStringArg bind].
    rewrite Ca, Cb.
    destruct (Z.of_nat a + 1 =? -1) eqn:E1; [lia|].
    destruct (Z.of_nat b + 1 =? -1) eqn:E2; [lia|].
    cbn [orb]. replace (i + SL - 1 + 1) with (i + SL) by lia. reflexivity.
  - exists l1, l2, s0, sl, a, b.
    repeat split; try assumption;
      try (apply (index_firstOccurrence _ _ _ Ia));
      try (apply (index_firstOccurrence _ _ _ Ib)).
Qed.

Lemma locateLines_found (hint : option Z) (i : Z) :
  selectionLines <> [] -> aligned i = true ->
  search hint = Ok (Some (i + 1)) ->
  exists span,
    locateLines fileLines selectionLines hint = Ok ([], Some span) /\
    spanOf fileLines selectionLines i span.
Proof.
  intros Hne Ha Hs.
  destruct (resolveColumns_aligned i Hne Ha) as [span [Hr Hspan]].
  exists span. split; [|exact Hspan].
  unfold locateLines. rewrite Hs. exact Hr.
Qed.

Lemma locateLines_not_found (hint : option Z) :
  search hint = Ok None ->
  locateLines fileLines selectionLines hint = Ok ([], None).
Proof. intros Hs. unfold locateLines. rewrite Hs. reflexivity. Qed.

(** The locator is total: it returns a value, logs nothing, and a span it
    returns is the span of a valid alignment. *)
Lemma locateLines_total (hint : option Z) :
  selectionLines <> [] ->
  locateLines fileLines selectionLines hint = Ok ([], None)
  \/ exists i span,
       aligned i = true /\ search hint = Ok (Some (i + 1)) /\
       spanOf fileLines selectionLines i span /\
       locateLines fileLines selectionLines hint = Ok ([], Some span).
Proof.
  intros Hne. destruct (search_sound hint) as [[l|] [Hs Hr]].
  - right. exists (l - 1).
    replace l with (l - 1 + 1) in Hs by lia.
    destruct (locateLines_found hint (l - 1) Hne Hr Hs) as [span [Hl Hsp]].
    exists span. auto.
  - left. apply locateLines_not_found. exact Hs.
Qed.

End LocatorFacts.

Lemma linesOf_nonempty (text : string) : linesOf text <> [].
Proof. apply split_nonempty. Qed.

Lemma spanOf_lines (fileLines selectionLines : list string) (i : Z)
    (span : MatchSpan) :
  spanOf fileLines selectionLines i span ->
  startLine span = i + 1 /\ endLine span = i + selLen selectionLines.
Proof.
  intros (l1 & l2 & s0 & sl & a & b & _ & _ & _ & _ & _ & _ & ->).
  split; reflexivity.
Qed.

Lemma alignments_single (fileLines selectionLines : list string) (p : Z) :
  alignments fileLines selectionLines = [p] ->
  alignedAt fileLines selectionLines p = true /\
  forall k, alignedAt fileLines selectionLines k = true -> k = p.
Proof.
  intros H. split.
  - apply alignments_In. rewrite H. left. reflexivity.
  - intros k Hk. apply alignments_In in Hk. rewrite H in Hk.
    destruct Hk as [<-|[]]. reflexivity.
Qed.

Lemma alignments_empty (fileLines selectionLines : list string) :
  alignments fileLines selectionLines = [] ->
  forall k, alignedAt fileLines selectionLines k = false.
Proof.
  intros H k. destruct (alignedAt fileLines selectionLines k) eqn:E;
    [|reflexivity].
  apply alignments_In in E. rewrite H in E. destruct E.
Qed.

(** * Properties of the locator *)

(** C1, as stated, fails: in the document of the two lines [a] and [a] the
    selection [a] is the verbatim block at 0-based index 1, and the
    unhinted call reports line 1, not line 2. *)
Lemma no_hint_verbatim_counterexample :
  ~ (forall content selection i,
       verbatimAt (linesOf content) (linesOf selection) i ->
       exists warnings span,
         getSelectionPosition content selection None
         = Ok (warnings, Some span) /\
         startLine span = i + 1).
Proof.
  intros H.
  destruct (H docTwoA "a"%string 1) as [w [span [E Hs]]].
  - split; [lia|reflexivity].
  - vm_compute in E. injection E as _ <-. discriminate Hs.
Qed.

(** C1 (amended): when the selection appears verbatim as the line block at
    0-based index [i], the unhinted call returns a span whose [startLine]
    is [j + 1] for the first valid alignment [j] of the document, and
    [j <= i]; it is [i + 1] when no valid alignment starts before [i]. *)
Theorem no_hint_first_alignment (content selection : string) (i : Z) :
  verbatimAt (linesOf content) (linesOf selection) i ->
  exists j span,
    firstFrom (linesOf content) (linesOf selection) 0 j /\ j <= i /\
    getSelectionPosition content selection None = Ok ([], Some span) /\
    startLine span = j + 1 /\
    ((forall k, 0 <= k < i ->
        alignedAt (linesOf content) (linesOf selection) k = false) ->
     startLine span = i + 1).
Proof.
  intros Hv.
  pose proof (linesOf_nonempty selection) as Hne.
  pose proof (verbatimAt_alignedAt _ _ i Hne Hv) as Ha.
  destruct (scan_down (linesOf content) (linesOf selection) 0 None)
    as [[j [Hj _]]|[Hno _]].
  - pose proof Hj as [H0 [Haj Hmin]].
    assert (Hji : j <= i).
    { destruct (Z_le_dec j i) as [Hle|Hgt]; [exact Hle|].
      apply alignedAt_bounds in Ha as Hb.
      rewrite Hmin in Ha by lia. discriminate. }
    destruct (locateLines_found _ _ None j Hne Haj (search_first _ _ j Hj))
      as [span [Hl Hsp]].
    apply spanOf_lines in Hsp as [Hstart _].
    exists j, span. repeat split; try assumption.
    intros Hnone. rewrite Hstart.
    destruct (Z.eq_dec j i) as [->|Hne']; [reflexivity|].
    rewrite Hnone in Haj by lia. discriminate.
  - apply alignedAt_bounds in Ha as Hb.
    rewrite Hno in Ha by lia. discriminate.
Qed.

Lemma no_hint_first_alignment_witness :
  exists j span,
    firstFrom (linesOf docTwoA) (linesOf "a"%string) 0 j /\ j <= 1 /\
    getSelectionPosition docTwoA "a"%string None = Ok ([], Some span) /\
    startLine span = j + 1 /\
    ((forall k, 0 <= k < 1 ->
        alignedAt (linesOf docTwoA) (linesOf "a"%string) k = false) ->
     startLine span = 1 + 1).
Proof.
  apply (no_hint_first_alignment docTwoA "a"%string 1).
  split; [lia|reflexivity].
Defined.

(** C2: the fields are not all positive.  For the document of the lines
    [foo] and [bar] and the selection [foo] followed by a line feed (whose
    last line is empty) the call returns a span with [endColumn = 0]. *)
Theorem end_column_zero_on_empty_last_line :
  getSelectionPosition docFooBar selFooLine None
  = Ok ([], Some {| startLine := 1; startColumn := 1;
                    endLine := 2; endColumn := 0 |}).
Proof. vm_compute. reflexivity. Qed.

(** What does hold of every returned span: the lines and the start
    column are at least 1, and the end column is at least 0. *)
Lemma span_field_bounds (content selection : string) (hint : option Z)
    (warnings : list string) (span : MatchSpan) :
  getSelectionPosition content selection hint = Ok (warnings, Some span) ->
  1 <= startLine span /\ 1 <= startColumn span /\
  1 <= endLine span /\ 0 <= endColumn span.
Proof.
  intros H. pose proof (linesOf_nonempty selection) as Hne.
  destruct (locateLines_total (linesOf content) (linesOf selection) hint Hne)
    as [Hn|(i & span' & Ha & _ & Hsp & Hl)];
    unfold getSelectionPosition in H; cbv zeta in H.
  - rewrite Hn in H. discriminate.
  - rewrite Hl in H. injection H as _ <-.
    apply alignedAt_bounds in Ha.
    destruct Hsp as (l1 & l2 & s0 & sl & a & b & _ & _ & _ & _ & _ & _ & ->).
    cbn [startLine startColumn endLine endColumn].
    assert (1 <= selLen (linesOf selection)).
    { unfold selLen. destruct (linesOf selection); [congruence|].
      simpl. lia. }
    lia.
Qed.

(** C3: a match at 0-based index [i] is reported as lines [i + 1] to
    [i + selLen], with [startColumn] the 1-based offset of the leftmost
    occurrence of the first selection line in document line [i] and
    [endColumn] the 1-based offset of the leftmost occurrence of the last
    selection line in the last matched line, plus its length, minus 1.
    The selection [const x = 1;] on the line [  const x = 1; // comment]
    gets columns 3 to 14. *)
Theorem match_span_fields (content selection : string) (hint : option Z)
    (i : Z) :
  findMatchStartLine (linesOf content) (linesOf selection) hint
  = Ok (Some (i + 1)) ->
  (exists span,
     getSelectionPosition content selection hint = Ok ([], Some span) /\
     spanOf (linesOf content) (linesOf selection) i span /\
     startLine span = i + 1 /\
     endLine span = i + selLen (linesOf selection)) /\
  getSelectionPosition docConst selConst None
  = Ok ([], Some {| startLine := 1; startColumn := 3;
                    endLine := 1; endColumn := 14 |}).
Proof.
  intros Hs. split; [|vm_compute; reflexivity].
  pose proof (linesOf_nonempty selection) as Hne.
  destruct (search_sound (linesOf content) (linesOf selection) hint)
    as [r [Hr Ha]].
  rewrite Hs in Hr. injection Hr as <-.
  replace (i + 1 - 1) with i in Ha by lia.
  destruct (locateLines_found _ _ hint i Hne Ha Hs) as [span [Hl Hsp]].
  exists span. split; [exact Hl|]. split; [exact Hsp|].
  exact (spanOf_lines _ _ _ _ Hsp).
Qed.

Lemma match_span_fields_witness :
  (exists span,
     getSelectionPosition docABCD "c"%string (Some 2) = Ok ([], Some span) /\
     spanOf (linesOf docABCD) (linesOf "c"%string) 2 span /\
     startLine span = 2 + 1 /\
     endLine span = 2 + selLen (linesOf "c"%string)) /\
  getSelectionPosition docConst selConst None
  = Ok ([], Some {| startLine := 1; startColumn := 3;
                    endLine := 1; endColumn := 14 |}).
Proof.
  apply (match_span_fields docABCD "c"%string (Some 2) 2).
  vm_compute. reflexivity.
Defined.

(** C4: when the selection has exactly the two valid alignments
    [p1 < p2], the call hinted at line [p1 + 1] reports [p1 + 1] and the
    call hinted at line [p2 + 1] reports [p2 + 1]. *)
Theorem hint_on_match_wins (content selection : string) (p1 p2 : Z) :
  p1 < p2 ->
  alignments (linesOf content) (linesOf selection) = [p1; p2] ->
  (exists span,
     getSelectionPosition content selection (Some (p1 + 1))
     = Ok ([], Some span) /\ startLine span = p1 + 1) /\
  (exists span,
     getSelectionPosition content selection (Some (p2 + 1))
     = Ok ([], Some span) /\ startLine span = p2 + 1).
Proof.
  intros _ Hal.
  pose proof (linesOf_nonempty selection) as Hne.
  assert (Hat : forall p,
    In p [p1; p2] ->
    exists span,
      getSelectionPosition content selection (Some (p + 1))
      = Ok ([], Some span) /\ startLine span = p + 1).
  { intros p Hp. rewrite <- Hal in Hp. apply alignments_In in Hp.
    destruct (locateLines_found _ _ (Some (p + 1)) p Hne Hp
                (search_at_hint _ _ p Hne Hp)) as [span [Hl Hsp]].
    exists span. split; [exact Hl|].
    exact (proj1 (spanOf_lines _ _ _ _ Hsp)). }
  split; apply Hat; simpl; auto.
Qed.

Lemma hint_on_match_wins_witness :
  (exists span,
     getSelectionPosition docABA "a"%string (Some (0 + 1))
     = Ok ([], Some span) /\ startLine span = 0 + 1) /\
  (exists span,
     getSelectionPosition docABA "a"%string (Some (2 + 1))
     = Ok ([], Some span) /\ startLine span = 2 + 1).
Proof.
  apply (hint_on_match_wins docABA "a"%string 0 2).
  - lia.
  - vm_compute. reflexivity.
Defined.

(** C5: when the selection has the single valid alignment [p], the call
    hinted at line [p + 3] still reports line [p + 1]; when that hint is
    within the document, the forward scan from the hint finds nothing and
    it is the backward scan that finds [p]. *)
Theorem backward_recovery (content selection : string) (p : Z) :
  alignments (linesOf content) (linesOf selection) = [p] ->
  (exists span,
     getSelectionPosition content selection (Some (p + 3))
     = Ok ([], Some span) /\ startLine span = p + 1) /\
  (p + 3 <= fileLen (linesOf content) ->
   scan (linesOf content) (linesOf selection) (p + 3 - 1) down None
   = Ok None /\
   scan (linesOf content) (linesOf selection) (p + 3 - 1 - 1) up None
   = Ok (Some (p + 1))).
Proof.
  intros Hal. apply alignments_single in Hal as [Ha Huniq].
  pose proof (linesOf_nonempty selection) as Hne.
  split.
  - destruct (locateLines_found _ _ (Some (p + 3)) p Hne Ha
                (search_unique _ _ p _ Ha Huniq)) as [span [Hl Hsp]].
    exists span. split; [exact Hl|].
    exact (proj1 (spanOf_lines _ _ _ _ Hsp)).
  - intros _. split.
    + destruct (scan_down (linesOf content) (linesOf selection)
                  (p + 3 - 1) None) as [[j [[Hj [Haj _]] _]]|[_ Hr]];
        [|exact Hr].
      apply Huniq in Haj. lia.
    + destruct (scan_up (linesOf content) (linesOf selection)
                  (p + 3 - 1 - 1) None) as [[j [[_ [Haj _]] Hr]]|[Hno _]].
      * rewrite Hr, (Huniq j Haj). reflexivity.
      * rewrite Hno in Ha by lia. discriminate.
Qed.

Lemma backward_recovery_witness :
  (exists span,
     getSelectionPosition docABCD "a"%string (Some (0 + 3))
     = Ok ([], Some span) /\ startLine span = 0 + 1) /\
  (0 + 3 <= fileLen (linesOf docABCD) ->
   scan (linesOf docABCD) (linesOf "a"%string) (0 + 3 - 1) down None
   = Ok None /\
   scan (linesOf docABCD) (linesOf "a"%string) (0 + 3 - 1 - 1) up None
   = Ok (Some (0 + 1))).
Proof.
  apply (backward_recovery docABCD "a"%string 0).
  vm_compute. reflexivity.
Defined.

(** C6: when the selection has a single valid alignment, the call returns
    the same result whatever the hint: in range, out of range or absent. *)
Theorem hint_convergence (content selection : string) (p : Z)
    (hint1 hint2 : option Z) :
  alignments (linesOf content) (linesOf selection) = [p] ->
  getSelectionPosition content selection hint1
  = getSelectionPosition content selection hint2.
Proof.
  intros Hal. apply alignments_single in Hal as [Ha Huniq].
  unfold getSelectionPosition, locateLines. cbv zeta.
  rewrite (search_unique _ _ p hint1 Ha Huniq).
  rewrite (search_unique _ _ p hint2 Ha Huniq).
  reflexivity.
Qed.

Lemma hint_convergence_witness :
  getSelectionPosition docABCD "c"%string (Some 4)
  = getSelectionPosition docABCD "c"%string (Some 9).
Proof.
  apply (hint_convergence docABCD "c"%string 2 (Some 4) (Some 9)).
  vm_compute. reflexivity.
Defined.

(** C7: a hint below 1 or above the number of document lines is ignored:
    the call returns what the unhinted call returns. *)
Theorem out_of_range_hint_ignored (content selection : string) (h : Z) :
  h < 1 \/ h > fileLen (linesOf content) ->
  getSelectionPosition content selection (Some h)
  = getSelectionPosition content selection None.
Proof.
  intros Hh. unfold getSelectionPosition, locateLines. cbv zeta.
  rewrite (search_out_of_range _ _ h Hh). reflexivity.
Qed.

Lemma out_of_range_hint_ignored_witness :
  getSelectionPosition docABA "a"%string (Some 7)
  = getSelectionPosition docABA "a"%string None.
Proof.
  apply (out_of_range_hint_ignored docABA "a"%string 7).
  right. vm_compute. reflexivity.
Defined.

(** C8: when the selection has no valid alignment in the document, the
    call returns [null] for every hint; it neither throws nor logs. *)
Theorem absent_selection_not_found (content selection : string)
    (hint : option Z) :
  alignments (linesOf content) (linesOf selection) = [] ->
  getSelectionPosition content selection hint = Ok ([], None).
Proof.
  intros Hal. apply locateLines_not_found, search_none.
  exact (alignments_empty _ _ Hal).
Qed.

Lemma absent_selection_not_found_witness :
  getSelectionPosition docABCD "x"%string (Some 3) = Ok ([], None).
Proof.
  apply (absent_selection_not_found docABCD "x"%string (Some 3)).
  vm_compute. reflexivity.
Defined.

(** C9: once [matchesAt] has returned true at index [i], the search for
    the first selection line in document line [i] and the search for the
    last selection line in the last matched line both succeed, so the
    column part returns a span without a warning; and no call of the
    locator ever takes the guard that logs the column warning. *)
Theorem column_guard_unreachable (content selection : string) (i : Z) :
  matchesAt (linesOf content) (linesOf selection) i = Ok true ->
  (exists firstFileLine lastFileLine firstSelLine lastSelLine,
     Js.arrayGet (linesOf content) i = Some firstFileLine /\
     Js.arrayGet (linesOf content) (i + selLen (linesOf selection) - 1)
     = Some lastFileLine /\
     Js.arrayGet (linesOf selection) 0 = Some firstSelLine /\
     Js.arrayGet (linesOf selection) (selLen (linesOf selection) - 1)
     = Some lastSelLine /\
     findColumn firstFileLine firstSelLine <> -1 /\
     findColumn lastFileLine lastSelLine <> -1) /\
  (exists span,
     resolveColumns (linesOf content) (linesOf selection) (i + 1)
     = Ok ([], Some span)) /\
  (forall hint,
     exists result,
       getSelectionPosition content selection hint = Ok ([], result)).
Proof.
  intros Hm. rewrite matchesAt_alignedAt in Hm. injection Hm as Ha.
  pose proof (linesOf_nonempty selection) as Hne.
  destruct (resolveColumns_aligned _ _ i Hne Ha) as [span [Hr Hsp]].
  split; [|split].
  - destruct (aligned_first_last _ _ i Hne Ha)
      as (l1 & l2 & s0 & sl & G1 & G2 & G3 & G4 & Hin1 & Hin2).
    exists l1, l2, s0, sl.
    repeat split; try assumption; apply findColumn_found; assumption.
  - exists span. exact Hr.
  - intros hint.
    destruct (locateLines_total (linesOf content) (linesOf selection)
                hint Hne) as [Hn|(j & span' & _ & _ & _ & Hl)].
    + exists None. exact Hn.
    + exists (Some span'). exact Hl.
Qed.

Lemma column_guard_unreachable_witness :
  (exists firstFileLine lastFileLine firstSelLine lastSelLine,
     Js.arrayGet (linesOf docFooBar) 0 = Some firstFileLine /\
     Js.arrayGet (linesOf docFooBar) (0 + selLen (linesOf selFooLine) - 1)
     = Some lastFileLine /\
     Js.arrayGet (linesOf selFooLine) 0 = Some firstSelLine /\
     Js.arrayGet (linesOf selFooLine) (selLen (linesOf selFooLine) - 1)
     = Some lastSelLine /\
     findColumn firstFileLine firstSelLine <> -1 /\
     findColumn lastFileLine lastSelLine <> -1) /\
  (exists span,
     resolveColumns (linesOf docFooBar) (linesOf selFooLine) (0 + 1)
     = Ok ([], Some span)) /\
  (forall hint,
     exists result,
       getSelectionPosition docFooBar selFooLine hint = Ok ([], result)).
Proof.
  apply (column_guard_unreachable docFooBar selFooLine 0).
  vm_compute. reflexivity.
Defined.

Lemma firstOccurrence_empty (k : nat) (line : string) :
  firstOccurrence k EmptyString line -> k = 0%nat.
Proof.
  intros [_ Hmin]. destruct k as [|k]; [reflexivity|].
  exfalso. apply (Hmin 0%nat); [lia|].
  unfold occursAt. destruct line; reflexivity.
Qed.

(** C10: the empty selection text normalizes to the single empty line,
    and for every document text the unhinted call on it returns the span
    [startLine = 1], [startColumn = 1], [endLine = 1], [endColumn = 0]. *)
Theorem empty_selection_span (content : string) :
  linesOf EmptyString = [EmptyString] /\
  getSelectionPosition content EmptyString None
  = Ok ([], Some {| startLine := 1; startColumn := 1;
                    endLine := 1; endColumn := 0 |}).
Proof.
  split; [reflexivity|].
  unfold getSelectionPosition. cbv zeta.
  change (linesOf EmptyString) with [EmptyString].
  pose proof (linesOf_nonempty content) as Hdoc.
  destruct (linesOf content) as [|line rest] eqn:Elines; [congruence|].
  assert (Ha : alignedAt (line :: rest) [EmptyString] 0 = true).
  { unfold alignedAt, selLen, fileLen. cbn [List.length].
    apply andb_true_iff. split;
      [apply andb_true_iff; split; apply Z.leb_le; lia|].
    cbn [Z.to_nat skipn combine forallb]. unfold lineContains. cbn [fst snd].
    rewrite includes_empty, combine_nil. reflexivity. }
  assert (Hfirst : firstFrom (line :: rest) [EmptyString] 0 0).
  { split; [lia|]. split; [exact Ha|]. intros k Hk. lia. }
  assert (Hne : [EmptyString] <> []) by discriminate.
  destruct (locateLines_found _ _ None 0 Hne Ha (search_first _ _ 0 Hfirst))
    as [span [Hl Hsp]].
  rewrite Hl.
  destruct Hsp as (l1 & l2 & s0 & sl & a & b
                   & _ & _ & G3 & G4 & Oa & Ob & ->).
  cbn in G3, G4. injection G3 as <-. injection G4 as <-.
  apply firstOccurrence_empty in Oa, Ob. subst a b. reflexivity.
Qed.

(** * Further properties of the locator *)

(** The locator returns a span exactly when the selection has a valid
    alignment in the document, the reported start line is one of the valid
    alignments, and nothing is logged or thrown, whatever the hint. *)
Theorem found_iff_alignment (content selection : string)
    (hint : option Z) :
  match getSelectionPosition content selection hint with
  | Ok (warnings, Some span) =>
      warnings = [] /\
      In (startLine span - 1)
         (alignments (linesOf content) (linesOf selection))
  | Ok (warnings, None) =>
      warnings = [] /\
      alignments (linesOf content) (linesOf selection) = []
  | TypeErr | OutOfFuel => False
  end.
Proof.
  pose proof (linesOf_nonempty selection) as Hne.
  unfold getSelectionPosition, locateLines. cbv zeta.
  destruct (search_sound (linesOf content) (linesOf selection) hint)
    as [[l|] [Hs Hr]]; rewrite Hs; cbn [bind].
  - destruct (resolveColumns_aligned _ _ (l - 1) Hne Hr) as [span [Hrc Hsp]].
    replace (l - 1 + 1) with l in Hrc by lia. rewrite Hrc.
    split; [reflexivity|].
    apply spanOf_lines in Hsp as [-> _].
    apply alignments_In. replace (l - 1 + 1 - 1) with (l - 1) by lia.
    exact Hr.
  - split; [reflexivity|].
    destruct (alignments (linesOf content) (linesOf selection))
      as [|k ks] eqn:E; [reflexivity|].
    assert (Hk : In k (alignments (linesOf content) (linesOf selection)))
      by (rewrite E; left; reflexivity).
    apply alignments_In in Hk. rewrite Hr in Hk. discriminate.
Qed.

Lemma span_lines_within (content selection : string) (hint : option Z)
    (warnings : list string) (span : MatchSpan) :
  getSelectionPosition content selection hint = Ok (warnings, Some span) ->
  1 <= startLine span /\ startLine span <= endLine span /\
  endLine span <= fileLen (linesOf content) /\
  endLine span = startLine span + selLen (linesOf selection) - 1.
Proof.
  intros H. pose proof (linesOf_nonempty selection) as Hne.
  destruct (locateLines_total (linesOf content) (linesOf selection) hint Hne)
    as [Hn|(i & span' & Ha & _ & Hsp & Hl)];
    unfold getSelectionPosition in H; cbv zeta in H.
  - rewrite Hn in H. discriminate.
  - rewrite Hl in H. injection H as _ <-.
    apply alignedAt_bounds in Ha.
    apply spanOf_lines in Hsp as [-> ->].
    assert (1 <= selLen (linesOf selection)).
    { unfold selLen. destruct (linesOf selection); [congruence|].
      simpl. lia. }
    lia.
Qed.

(** A returned span lies within the document and covers exactly as many
    lines as the selection has:
    [1 <= startLine <= endLine <= number of document lines] and
    [endLine = startLine + selLen - 1]. *)
Theorem span_line_range (content selection : string) (hint : option Z)
    (warnings : list string) (span : MatchSpan) :
  getSelectionPosition content selection hint = Ok (warnings, Some span) ->
  1 <= startLine span /\ startLine span <= endLine span /\
  endLine span <= fileLen (linesOf content) /\
  endLine span = startLine span + selLen (linesOf selection) - 1.
Proof. apply span_lines_within. Qed.

Lemma span_line_range_witness :
  1 <= startLine (mkSpan 1 1 2 0) /\
  startLine (mkSpan 1 1 2 0) <= endLine (mkSpan 1 1 2 0) /\
  endLine (mkSpan 1 1 2 0) <= fileLen (linesOf docFooBar) /\
  endLine (mkSpan 1 1 2 0)
  = startLine (mkSpan 1 1 2 0) + selLen (linesOf selFooLine) - 1.
Proof.
  apply (span_line_range docFooBar selFooLine None [] (mkSpan 1 1 2 0)).
  vm_compute. reflexivity.
Defined.

Lemma substring_length_le (line : string) (k n : nat) :
  (String.length (substring k n line) <= String.length line - k)%nat.
Proof.
  revert k n. induction line as [|c rest IH]; intros [|k] [|n]; simpl;
    try lia.
  - specialize (IH 0%nat n). lia.
  - apply IH.
  - apply IH.
Qed.

Lemma firstOccurrence_fits (k : nat) (target line : string) :
  firstOccurrence k target line ->
  (k + String.length target <= String.length line)%nat.
Proof.
  intros Hfo. destruct target as [|c target'].
  - apply firstOccurrence_empty in Hfo. subst k. simpl. lia.
  - destruct Hfo as [Hocc _]. unfold occursAt in Hocc.
    pose proof (substring_length_le line k
                  (String.length (String c target'))) as Hle.
    rewrite Hocc in Hle. simpl in *. lia.
Qed.

(** Reading the reported columns back gives the selection: the first
    selection line is the text of the first matched line that starts at
    [startColumn], the last selection line is the text of the last matched
    line that ends at [endColumn], and both lie within their lines. *)
Theorem span_columns_read_back (content selection : string)
    (hint : option Z) (warnings : list string) (span : MatchSpan) :
  getSelectionPosition content selection hint = Ok (warnings, Some span) ->
  exists firstFileLine lastFileLine firstSelLine lastSelLine,
    Js.arrayGet (linesOf content) (startLine span - 1)
    = Some firstFileLine /\
    Js.arrayGet (linesOf content) (endLine span - 1) = Some lastFileLine /\
    Js.arrayGet (linesOf selection) 0 = Some firstSelLine /\
    Js.arrayGet (linesOf selection) (selLen (linesOf selection) - 1)
    = Some lastSelLine /\
    substring (Z.to_nat (startColumn span - 1))
      (String.length firstSelLine) firstFileLine = firstSelLine /\
    substring (Z.to_nat (endColumn span) - String.length lastSelLine)
      (String.length lastSelLine) lastFileLine = lastSelLine /\
    startColumn span - 1 + Z.of_nat (String.length firstSelLine)
    <= Z.of_nat (String.length firstFileLine) /\
    endColumn span <= Z.of_nat (String.length lastFileLine).
Proof.
  intros H. pose proof (linesOf_nonempty selection) as Hne.
  destruct (locateLines_total (linesOf content) (linesOf selection) hint Hne)
    as [Hn|(i & span' & Ha & _ & Hsp & Hl)];
    unfold getSelectionPosition in H; cbv zeta in H.
  - rewrite Hn in H. discriminate.
  - rewrite Hl in H. injection H as _ <-.
    destruct Hsp as (l1 & l2 & s0 & sl & a & b
                     & G1 & G2 & G3 & G4 & Oa & Ob & ->).
    cbn [startLine startColumn endLine endColumn].
    exists l1, l2, s0, sl.
    pose proof (firstOccurrence_fits _ _ _ Oa) as Fa.
    pose proof (firstOccurrence_fits _ _ _ Ob) as Fb.
    destruct Oa as [Oa _]. destruct Ob as [Ob _]. unfold occursAt in Oa, Ob.
    replace (i + 1 - 1) with i by lia.
    replace (Z.to_nat (Z.of_nat a + 1 - 1)) with a by lia.
    replace (Z.to_nat (Z.of_nat b + 1 + Z.of_nat (String.length sl) - 1)
             - String.length sl)%nat with b by lia.
    repeat split; try assumption; lia.
Qed.

Lemma span_columns_read_back_witness :
  exists firstFileLine lastFileLine firstSelLine lastSelLine,
    Js.arrayGet (linesOf docConst) (startLine (mkSpan 1 3 1 14) - 1)
    = Some firstFileLine /\
    Js.arrayGet (linesOf docConst) (endLine (mkSpan 1 3 1 14) - 1)
    = Some lastFileLine /\
    Js.arrayGet (linesOf selConst) 0 = Some firstSelLine /\
    Js.arrayGet (linesOf selConst) (selLen (linesOf selConst) - 1)
    = Some lastSelLine /\
    substring (Z.to_nat (startColumn (mkSpan 1 3 1 14) - 1))
      (String.length firstSelLine) firstFileLine = firstSelLine /\
    substring (Z.to_nat (endColumn (mkSpan 1 3 1 14))
               - String.length lastSelLine)
      (String.length lastSelLine) lastFileLine = lastSelLine /\
    startColumn (mkSpan 1 3 1 14) - 1
    + Z.of_nat (String.length firstSelLine)
    <= Z.of_nat (String.length firstFileLine) /\
    endColumn (mkSpan 1 3 1 14) <= Z.of_nat (String.length lastFileLine).
Proof.
  apply (span_columns_read_back docConst selConst None []
           (mkSpan 1 3 1 14)).
  vm_compute. reflexivity.
Defined.

Lemma lastUpTo_unique (fileLines selectionLines : list string)
    (c j j' : Z) :
  lastUpTo fileLines selectionLines c j ->
  lastUpTo fileLines selectionLines c j' -> j = j'.
Proof.
  intros [Hj [Ha Hm]] [Hj' [Ha' Hm']].
  destruct (Z.lt_trichotomy j j') as [Hlt|[Heq|Hgt]]; [|exact Heq|].
  - specialize (Hm j' ltac:(lia)). congruence.
  - specialize (Hm' j ltac:(lia)). congruence.
Qed.

(** With a hint inside the document, a valid alignment at or after the
    hinted line wins over every alignment before it: the call reports the
    first valid alignment at or after the hint. *)
Theorem hinted_forward_first (content selection : string) (h j : Z) :
  1 <= h <= fileLen (linesOf content) ->
  h - 1 <= j ->
  In j (alignments (linesOf content) (linesOf selection)) ->
  (forall k, In k (alignments (linesOf content) (linesOf selection)) ->
             h - 1 <= k -> j <= k) ->
  exists span,
    getSelectionPosition content selection (Some h) = Ok ([], Some span) /\
    startLine span = j + 1.
Proof.
  intros Hh Hhj Hj Hmin.
  pose proof (linesOf_nonempty selection) as Hne.
  apply alignments_In in Hj.
  assert (Hs : findMatchStartLine (linesOf content) (linesOf selection)
                 (Some h) = Ok (Some (j + 1))).
  { rewrite search_in_range by lia.
    destruct (scan_down (linesOf content) (linesOf selection) (h - 1) None)
      as [[j' [[Hj' [Haj' Hmin']] Hr]]|[Hno _]].
    - rewrite Hr. cbn [bind].
      assert (j <= j') by (apply Hmin; [apply alignments_In; exact Haj'|lia]).
      destruct (Z.eq_dec j j') as [->|Hne']; [reflexivity|].
      rewrite Hmin' in Hj by lia. discriminate.
    - rewrite Hno in Hj by lia. discriminate. }
  destruct (locateLines_found _ _ (Some h) j Hne Hj Hs) as [span [Hl Hsp]].
  exists span. split; [exact Hl|].
  exact (proj1 (spanOf_lines _ _ _ _ Hsp)).
Qed.

Lemma hinted_forward_first_witness :
  exists span,
    getSelectionPosition docABA "a"%string (Some 2) = Ok ([], Some span) /\
    startLine span = 2 + 1.
Proof.
  apply (hinted_forward_first docABA "a"%string 2 2).
  - vm_compute. split; discriminate.
  - lia.
  - vm_compute. right. left. reflexivity.
  - intros k Hk. vm_compute in Hk. destruct Hk as [<-|[<-|[]]]; lia.
Defined.

(** With a hint inside the document and no valid alignment at or after
    the hinted line, the call reports the valid alignment nearest before
    the hint, not the first one of the document. *)
Theorem hinted_backward_nearest (content selection : string) (h j : Z) :
  1 <= h <= fileLen (linesOf content) ->
  In j (alignments (linesOf content) (linesOf selection)) ->
  (forall k, In k (alignments (linesOf content) (linesOf selection)) ->
             k <= j) ->
  j < h - 1 ->
  exists span,
    getSelectionPosition content selection (Some h) = Ok ([], Some span) /\
    startLine span = j + 1.
Proof.
  intros Hh Hj Hmax Hjh.
  pose proof (linesOf_nonempty selection) as Hne.
  apply alignments_In in Hj.
  assert (Hs : findMatchStartLine (linesOf content) (linesOf selection)
                 (Some h) = Ok (Some (j + 1))).
  { rewrite search_in_range by lia.
    destruct (scan_down (linesOf content) (linesOf selection) (h - 1) None)
      as [[j' [[Hj' [Haj' _]] _]]|[_ Hr]].
    - apply alignments_In, Hmax in Haj'. lia.
    - rewrite Hr. cbn [bind].
      destruct (scan_up (linesOf content) (linesOf selection)
                  (h - 1 - 1) None)
        as [[j' [[Hj' [Haj' Hmax']] Hr']]|[Hno _]].
      + rewrite Hr'. cbn [bind].
        assert (j' <= j) by (apply Hmax, alignments_In; exact Haj').
        destruct (Z.eq_dec j j') as [->|Hne']; [reflexivity|].
        rewrite Hmax' in Hj by lia. discriminate.
      + rewrite Hno in Hj by lia. discriminate. }
  destruct (locateLines_found _ _ (Some h) j Hne Hj Hs) as [span [Hl Hsp]].
  exists span. split; [exact Hl|].
  exact (proj1 (spanOf_lines _ _ _ _ Hsp)).
Qed.

Lemma hinted_backward_nearest_witness :
  exists span,
    getSelectionPosition docAABB "a"%string (Some 4) = Ok ([], Some span) /\
    startLine span = 1 + 1.
Proof.
  apply (hinted_backward_nearest docAABB "a"%string 4 1).
  - vm_compute. split; discriminate.
  - vm_compute. right. left. reflexivity.
  - intros k Hk. vm_compute in Hk. destruct Hk as [<-|[<-|[]]]; lia.
  - lia.
Defined.

(** A selection with more lines than the document is never found; this
    is the case of a selection that ends with a line feed and is taken
    from the last line of a file without a final line feed. *)
Theorem selection_longer_than_document (content selection : string)
    (hint : option Z) :
  fileLen (linesOf content) < selLen (linesOf selection) ->
  getSelectionPosition content selection hint = Ok ([], None).
Proof.
  intros Hlen. apply locateLines_not_found, search_none.
  intros k. destruct (alignedAt (linesOf content) (linesOf selection) k)
    eqn:E; [|reflexivity].
  apply alignedAt_bounds in E. lia.
Qed.

Lemma selection_longer_than_document_witness :
  getSelectionPosition docFoo selFooLine (Some 1) = Ok ([], None).
Proof.
  apply (selection_longer_than_document docFoo selFooLine (Some 1)).
  vm_compute. reflexivity.
Defined.

(** ** The containment test and the column search *)

Lemma index_None_no_occurrence (line target : string) :
  index 0 target line = None -> forall k, ~ occursAt k target line.
Proof.
  intros Hnone k. destruct target as [|c target'].
  - apply index_correct4 in Hnone. lia.
  - apply (index_correct3 0 k _ _ Hnone); [discriminate|lia].
Qed.

Lemma includes_occurs (line target : string) :
  Js.includes line target = true <-> exists k, occursAt k target line.
Proof.
  rewrite includes_index. split.
  - destruct (index 0 target line) as [k|] eqn:E; [|discriminate].
    intros _. exists k. exact (index_correct1 _ _ _ _ E).
  - intros [k Hk]. destruct (index 0 target line) eqn:E; [reflexivity|].
    exfalso. exact (index_None_no_occurrence _ _ E k Hk).
Qed.

(** [matchesAt] never reads outside the document, and it returns true
    exactly when the window of the selection at index [i] lies within the
    document and each selection line occurs, at some offset, in the
    document line facing it. *)
Theorem matchesAt_decides_alignment (fileLines selectionLines : list string)
    (i : Z) :
  exists answer,
    matchesAt fileLines selectionLines i = Ok answer /\
    (answer = true <->
     0 <= i /\ i + selLen selectionLines <= fileLen fileLines /\
     forall k s, nth_error selectionLines k = Some s ->
       exists line offset,
         nth_error fileLines (Z.to_nat i + k) = Some line /\
         occursAt offset s line).
Proof.
  exists (alignedAt fileLines selectionLines i).
  split; [apply matchesAt_alignedAt|].
  rewrite alignedAt_spec. split.
  - intros (H0 & Hb & Hall). repeat split; try assumption.
    intros k s Hs. destruct (Hall k s Hs) as (line & Hl & Hin).
    apply includes_occurs in Hin as [offset Ho]. eauto.
  - intros (H0 & Hb & Hall). repeat split; try assumption.
    intros k s Hs. destruct (Hall k s Hs) as (line & offset & Hl & Ho).
    exists line. split; [exact Hl|]. apply includes_occurs. eauto.
Qed.

(** [findColumn] returns [-1] exactly when the target does not occur in
    the line; otherwise it returns the 1-based offset of the leftmost
    occurrence, so it never returns 0. *)
Theorem findColumn_leftmost (line target : string) :
  (findColumn line target = -1 /\ forall k, ~ occursAt k target line)
  \/ (exists k, firstOccurrence k target line /\
                findColumn line target = Z.of_nat k + 1).
Proof.
  unfold findColumn, Js.indexOf.
  destruct (index 0 target line) as [k|] eqn:E.
  - right. exists k. split; [exact (index_firstOccurrence _ _ _ E)|].
    destruct (Z.of_nat k =? -1) eqn:E1; [lia|reflexivity].
  - left. split; [reflexivity|]. exact (index_None_no_occurrence _ _ E).
Qed.

(** ** Line endings *)

Lemma replaceCRLF_without (c : ascii) (s : string) :
  c = Js.CR \/ c = Js.LF ->
  hasChar c s = false -> Js.replaceCRLF s = s.
Proof.
  intros Hc. induction s as [|a rest IH]; intros H; [reflexivity|].
  cbn [hasChar] in H. apply orb_false_iff in H as [Ha Hrest].
  cbn [Js.replaceCRLF]. destruct rest as [|b rest']; [reflexivity|].
  assert (Hpair : (Ascii.eqb a Js.CR && Ascii.eqb b Js.LF)%bool = false).
  { cbn [hasChar] in Hrest. apply orb_false_iff in Hrest as [Hb _].
    destruct Hc as [-> | ->]; [rewrite Ha|rewrite Hb, andb_false_r];
      reflexivity. }
  rewrite Hpair, (IH Hrest). reflexivity.
Qed.

Lemma replaceCRLF_app_crlf (line rest : string) :
  hasChar Js.LF line = false ->
  Js.replaceCRLF (line ++ crlf ++ rest)
  = (line ++ String Js.LF (Js.replaceCRLF rest))%string.
Proof.
  induction line as [|a line' IH]; intros H; [reflexivity|].
  cbn [hasChar] in H. apply orb_false_iff in H as [Ha Hrest].
  specialize (IH Hrest).
  change ((String a line' ++ crlf ++ rest)%string)
    with (String a (line' ++ crlf ++ rest)%string).
  destruct line' as [|b line''].
  - change ((EmptyString ++ crlf ++ rest)%string)
      with (String Js.CR (String Js.LF rest)) in *.
    cbn [Js.replaceCRLF] in *.
    replace (Ascii.eqb Js.CR Js.LF) with false by reflexivity.
    rewrite andb_false_r. rewrite IH. reflexivity.
  - change ((String b line'' ++ crlf ++ rest)%string)
      with (String b (line'' ++ crlf ++ rest)%string) in *.
    cbn [hasChar] in Hrest. apply orb_false_iff in Hrest as [Hb _].
    remember (String b (line'' ++ crlf ++ rest)%string) as tail eqn:Et.
    cbn [Js.replaceCRLF]. rewrite Et at 1. rewrite Hb, andb_false_r.
    rewrite IH. reflexivity.
Qed.

Lemma split_without_LF (line : string) :
  hasChar Js.LF line = false -> Js.split line = [line].
Proof.
  induction line as [|a line' IH]; intros H; [reflexivity|].
  cbn [hasChar] in H. apply orb_false_iff in H as [Ha Hrest].
  cbn [Js.split]. rewrite Ha, (IH Hrest). reflexivity.
Qed.

Lemma split_app_LF (line rest : string) :
  hasChar Js.LF line = false ->
  Js.split (line ++ String Js.LF rest) = line :: Js.split rest.
Proof.
  induction line as [|a line' IH]; intros H; [reflexivity|].
  cbn [hasChar] in H. apply orb_false_iff in H as [Ha Hrest].
  cbn [append Js.split]. rewrite Ha, (IH Hrest). reflexivity.
Qed.

Lemma replaceCRLF_windowsText (lines : list string) :
  Forall (fun line => hasChar Js.LF line = false) lines ->
  Js.replaceCRLF (windowsText lines) = unixText lines.
Proof.
  unfold windowsText, unixText.
  induction 1 as [|line rest Hline Hrest IH]; [reflexivity|].
  destruct rest as [|line' rest'].
  - cbn [concat]. apply (replaceCRLF_without Js.LF); auto.
  - change (concat crlf (line :: line' :: rest'))
      with (line ++ crlf ++ concat crlf (line' :: rest'))%string.
    rewrite replaceCRLF_app_crlf by exact Hline. rewrite IH. reflexivity.
Qed.

Lemma split_unixText (lines : list string) :
  lines <> [] ->
  Forall (fun line => hasChar Js.LF line = false) lines ->
  Js.split (unixText lines) = lines.
Proof.
  unfold unixText. intros Hne Hall.
  induction Hall as [|line rest Hline Hrest IH]; [congruence|].
  destruct rest as [|line' rest'].
  - cbn [concat]. apply split_without_LF. exact Hline.
  - change (concat nl (line :: line' :: rest'))
      with (line ++ String Js.LF (concat nl (line' :: rest')))%string.
    rewrite split_app_LF by exact Hline. rewrite IH by discriminate.
    reflexivity.
Qed.

Lemma hasChar_app (c : ascii) (s t : string) :
  hasChar c (s ++ t) = (hasChar c s || hasChar c t)%bool.
Proof.
  induction s as [|a s IH]; [reflexivity|].
  cbn [append hasChar]. rewrite IH, orb_assoc. reflexivity.
Qed.

Lemma hasChar_CR_unixText (lines : list string) :
  Forall (fun line => hasChar Js.CR line = false) lines ->
  hasChar Js.CR (unixText lines) = false.
Proof.
  unfold unixText. induction 1 as [|line rest Hline Hrest IH];
    [reflexivity|].
  destruct rest as [|line' rest']; [exact Hline|].
  change (concat nl (line :: line' :: rest'))
    with (line ++ nl ++ concat nl (line' :: rest'))%string.
  rewrite !hasChar_app, Hline, IH. reflexivity.
Qed.

(** The lines of a text are recovered from it: a text whose lines hold no
    line feed is split back into these lines when they are joined by
    CR LF, and also when they are joined by LF and hold no carriage
    return either. *)
Theorem lines_of_text_round_trip (lines : list string) :
  lines <> [] ->
  Forall (fun line => hasChar Js.LF line = false) lines ->
  linesOf (windowsText lines) = lines /\
  (Forall (fun line => hasChar Js.CR line = false) lines ->
   linesOf (unixText lines) = lines).
Proof.
  intros Hne Hlf. unfold linesOf. split.
  - rewrite replaceCRLF_windowsText by exact Hlf.
    apply split_unixText; assumption.
  - intros Hcr.
    rewrite (replaceCRLF_without Js.CR)
      by (auto using hasChar_CR_unixText).
    apply split_unixText; assumption.
Qed.

Lemma lines_of_text_round_trip_witness :
  linesOf (windowsText ["a"; "b"; EmptyString]%string)
  = ["a"; "b"; EmptyString]%string /\
  (Forall (fun line => hasChar Js.CR line = false)
     ["a"; "b"; EmptyString]%string ->
   linesOf (unixText ["a"; "b"; EmptyString]%string)
   = ["a"; "b"; EmptyString]%string).
Proof.
  apply (lines_of_text_round_trip ["a"; "b"; EmptyString]%string).
  - discriminate.
  - repeat constructor.
Defined.



(** * The default branch *)

Lemma splitOn_pieces (sep : ascii) (s : string) :
  Forall (fun piece => hasChar sep piece = false) (splitOn sep s).
Proof.
  induction s as [|c rest IH]; cbn [splitOn].
  - repeat constructor.
  - destruct (Ascii.eqb c sep) eqn:E.
    + constructor; [reflexivity|exact IH].
    + destruct (splitOn sep rest) as [|piece pieces].
      * constructor; [|constructor]. cbn [hasChar]. rewrite E. reflexivity.
      * inversion IH as [|? ? Hpiece Hpieces]; subst.
        constructor; [|exact Hpieces].
        cbn [hasChar]. rewrite E. exact Hpiece.
Qed.

Lemma arrayGet_In (a : list string) (k : Z) (x : string) :
  Js.arrayGet a k = Some x -> In x a.
Proof.
  unfold Js.arrayGet. destruct (k <? 0); [discriminate|].
  apply nth_error_In.
Qed.

Lemma afterPrefix_Some (p s rest : string) :
  afterPrefix p s = Some rest -> s = (p ++ rest)%string.
Proof.
  revert s. induction p as [|a p IH]; intros s H.
  - injection H as ->. reflexivity.
  - destruct s as [|b s]; [discriminate|]. cbn [afterPrefix] in H.
    destruct (Ascii.eqb a b) eqn:E; [|discriminate].
    apply Ascii.eqb_eq in E. subst b. cbn [append]. f_equal. auto.
Qed.

Lemma truthy_nonempty (s : string) : truthy s = true -> s <> EmptyString.
Proof. destruct s; [discriminate|discriminate]. Qed.

Lemma fallback_plain
    (runCommand : list string -> CommandResult) :
  match runCommand ["git"; "rev-parse"; "--abbrev-ref"; "origin/HEAD"]%string
  with
  | Returned first =>
      (success first && truthy (stdout first)
       && negb (String.eqb (stdout first) "origin/HEAD"))%bool = false
  | Threw _ => True
  end ->
  snd (getDefaultBranchName runCommand) <> EmptyString /\
  hasChar "/" (snd (getDefaultBranchName runCommand)) = false.
Proof.
  unfold getDefaultBranchName.
  destruct (runCommand _) as [first|msg]; intros H.
  - rewrite H.
    destruct (runCommand _) as [second|msg].
    + destruct (success second && truthy (stdout second))%bool;
        [|split; [discriminate|reflexivity]].
      cbv zeta.
      destruct (Js.arrayGet _ _) as [branchName|] eqn:G;
        [|split; [discriminate|reflexivity]].
      destruct (truthy branchName) eqn:T;
        [|split; [discriminate|reflexivity]].
      cbn [snd]. split; [apply truthy_nonempty; exact T|].
      apply arrayGet_In in G.
      pose proof (splitOn_pieces "/" (stdout second)) as Hall.
      rewrite Forall_forall in Hall. exact (Hall _ G).
    + split; [discriminate|reflexivity].
  - split; [discriminate|reflexivity].
Qed.



(** The name returned is empty only when [origin/HEAD] is answered with
    exactly [origin/]: for every other answer of the first command the
    name is not empty. *)
Theorem default_branch_not_empty
    (runCommand : list string -> CommandResult) :
  (forall first,
     runCommand ["git"; "rev-parse"; "--abbrev-ref"; "origin/HEAD"]%string
     = Returned first ->
     stdout first <> "origin/"%string) ->
  snd (getDefaultBranchName runCommand) <> EmptyString.
Proof.
  intros Hfirst.
  destruct (runCommand
              ["git"; "rev-parse"; "--abbrev-ref"; "origin/HEAD"]%string)
    as [first|msg] eqn:E.
  - destruct (success first && truthy (stdout first)
              && negb (String.eqb (stdout first) "origin/HEAD"))%bool
      eqn:C.
    + unfold getDefaultBranchName. rewrite E, C. cbn [snd].
      apply andb_true_iff in C as [C _]. apply andb_true_iff in C as [_ T].
      unfold removeOriginPrefix.
      destruct (afterPrefix "origin/" (stdout first)) as [rest|] eqn:A.
      * intros ->. apply afterPrefix_Some in A.
        exact (Hfirst first eq_refl A).
      * apply truthy_nonempty. exact T.
    + apply fallback_plain. rewrite E. exact C.
  - apply fallback_plain. rewrite E. exact I.
Qed.

Lemma default_branch_not_empty_witness :
  snd (getDefaultBranchName sampleGitMain) <> EmptyString.
Proof.
  apply (default_branch_not_empty sampleGitMain).
  intros first H. injection H as <-. discriminate.
Defined.

(** * The command line of [main] *)

Lemma bindProc_Running {A B : Type} (m : Proc A) (k : A -> Proc B)
    (log : list LogEntry) (b : B) :
  bindProc m k = Running log b ->
  exists log1 a log2,
    m = Running log1 a /\ k a = Running log2 b /\ log = log1 ++ log2.
Proof.
  destruct m as [log1 a| |]; cbn [bindProc]; try discriminate.
  destruct (k a) as [log2 b'| |] eqn:E; try discriminate.
  intros [= <- <-]. exists log1, a, log2. auto.
Qed.

Section CommandLineFacts.

Variable helpText : string.
Variable parseInt : string -> option Z.
Variable trim : string -> string.
Variable numberToString : Z -> string.
Variable readFile : string -> string + string.
Variable typeErrorMessage : string.

Local Abbreviation loopOf := (parseLoop helpText parseInt trim).
Local Abbreviation parse := (parseArguments helpText parseInt trim).
Local Abbreviation resolve :=
  (resolveLineRange helpText numberToString readFile typeErrorMessage).
Local Abbreviation front :=
  (mainLineRange helpText parseInt trim numberToString readFile
     typeErrorMessage).

Ltac proc_reduce H :=
  unfold displayHelp, logTo, exit in H; cbn [bindProc app] in H.

Ltac valid_fields :=
  unfold validArgs;
  cbn [branchFromArg selectionTextFromArg parsedLineStart parsedLineEnd];
  split; [|split; [|split]]; try assumption.

Lemma parseLoop_valid (n : nat) :
  forall (rawArgs : list string) (st : Args) (log : list LogEntry)
         (a : Args),
    (List.length rawArgs <= n)%nat ->
    validArgs trim st ->
    loopOf rawArgs st = Running log a ->
    validArgs trim a.
Proof.
  induction n as [|n IH]; intros rawArgs st log a Hlen Hst H;
    destruct rawArgs as [|arg rest]; cbn [List.length] in Hlen; try lia;
    try (cbn [parseLoop] in H; injection H as _ <-; exact Hst).
  destruct Hst as (Hb & Hs & Hls & Hle).
  cbn [parseLoop] in H.
  destruct (String.eqb arg "--branch" || String.eqb arg "-b")%bool.
  { destruct rest as [|value rest']; [proc_reduce H; discriminate|].
    destruct (prefix "-" value) eqn:P; cbn [negb] in H;
      [proc_reduce H; discriminate|].
    apply IH in H; [exact H|cbn [List.length] in Hlen; lia|].
    valid_fields. intros b [= <-]. exact P. }
  destruct (String.eqb arg "--default-branch" || String.eqb arg "-d")%bool.
  { apply IH in H; [exact H|lia|]. valid_fields. }
  destruct (String.eqb arg "--selection" || String.eqb arg "-s")%bool.
  { destruct rest as [|value rest']; [proc_reduce H; discriminate|].
    destruct (prefix "-" value) eqn:P; cbn [negb] in H;
      [proc_reduce H; discriminate|].
    destruct (String.length (trim value) =? 0)%nat eqn:E.
    - apply bindProc_Running in H as (l1 & u & l2 & _ & H' & _).
      apply IH in H'; [exact H'|cbn [List.length] in Hlen; lia|].
      valid_fields. discriminate.
    - apply IH in H; [exact H|cbn [List.length] in Hlen; lia|].
      valid_fields. intros s [= <-]. split; [exact P|].
      apply Nat.eqb_neq. exact E. }
  destruct (String.eqb arg "--line-start" || String.eqb arg "-L")%bool.
  { destruct rest as [|value rest']; [proc_reduce H; discriminate|].
    destruct (prefix "-" value) eqn:P; cbn [negb] in H;
      [proc_reduce H; discriminate|].
    destruct (parseInt value) as [m|]; [|proc_reduce H; discriminate].
    destruct (m <=? 0) eqn:E; [proc_reduce H; discriminate|].
    apply IH in H; [exact H|cbn [List.length] in Hlen; lia|].
    valid_fields. intros k [= <-]. lia. }
  destruct (String.eqb arg "--line-end" || String.eqb arg "-E")%bool.
  { destruct rest as [|value rest']; [proc_reduce H; discriminate|].
    destruct (prefix "-" value) eqn:P; cbn [negb] in H;
      [proc_reduce H; discriminate|].
    destruct (parseInt value) as [m|]; [|proc_reduce H; discriminate].
    destruct (m <=? 0) eqn:E; [proc_reduce H; discriminate|].
    apply IH in H; [exact H|cbn [List.length] in Hlen; lia|].
    valid_fields. intros k [= <-]. lia. }
  apply IH in H; [exact H|lia|]. valid_fields.
Qed.

Lemma parse_Running (rawArgs : list string) (log : list LogEntry)
    (a : Args) :
  parse rawArgs = Running log a ->
  loopOf rawArgs initialArgs = Running log a /\
  existsb (String.eqb "-h") rawArgs = false /\
  existsb (String.eqb "--help") rawArgs = false.
Proof.
  unfold parseArguments. intros H.
  destruct (existsb (String.eqb "-h") rawArgs); cbn [orb] in H;
    [proc_reduce H; discriminate|].
  destruct (existsb (String.eqb "--help") rawArgs);
    [proc_reduce H; discriminate|].
  apply bindProc_Running in H as (l1 & u & l2 & [= <-] & H' & ->).
  auto.
Qed.

Lemma parse_valid (rawArgs : list string) (log : list LogEntry)
    (a : Args) :
  parse rawArgs = Running log a -> validArgs trim a.
Proof.
  intros H. apply parse_Running in H as [H _].
  apply (parseLoop_valid (List.length rawArgs) rawArgs initialArgs log a);
    [lia| |exact H].
  unfold validArgs. cbn. repeat split; discriminate.
Qed.

(** Arguments that pass the argument loop are valid: no value taken for
    a flag starts with a dash, a selection kept is not blank, and the
    line numbers kept are positive. *)
Theorem parsed_arguments_valid (rawArgs : list string)
    (log : list LogEntry) (a : Args) :
  parse rawArgs = Running log a -> validArgs trim a.
Proof. apply parse_valid. Qed.

Ltac exited :=
  unfold displayHelp, logTo, exit; cbn [bindProc app]; eauto.

Lemma parseLoop_trailing (flag : string) (n : nat) :
  In flag valueFlags ->
  forall (pre : list string) (st : Args),
    (List.length pre <= n)%nat ->
    exists log exitCode,
      loopOf (pre ++ [flag]) st = Exited log exitCode.
Proof.
  intros Hin.
  assert (Hdash : prefix "-" flag = true).
  { repeat (destruct Hin as [<-|Hin]; [reflexivity|]). destruct Hin. }
  assert (Hlast : forall st, exists log exitCode,
                    loopOf [flag] st = Exited log exitCode).
  { intros st.
    repeat (destruct Hin as [<-|Hin]; [cbn; eauto|]). destruct Hin. }
  induction n as [|n IH]; intros pre st Hlen;
    destruct pre as [|x pre']; cbn [List.length] in Hlen; try lia;
    try apply Hlast.
  cbn [app parseLoop].
  destruct (String.eqb x "--branch" || String.eqb x "-b")%bool.
  { destruct pre' as [|y pre'']; cbn [app].
    - rewrite Hdash. cbn [negb]. exited.
    - destruct (prefix "-" y); cbn [negb]; [exited|].
      apply IH. cbn [List.length] in Hlen. lia. }
  destruct (String.eqb x "--default-branch" || String.eqb x "-d")%bool.
  { apply IH. lia. }
  destruct (String.eqb x "--selection" || String.eqb x "-s")%bool.
  { destruct pre' as [|y pre'']; cbn [app].
    - rewrite Hdash. cbn [negb]. exited.
    - destruct (prefix "-" y); cbn [negb]; [exited|].
      destruct (String.length (trim y) =? 0)%nat.
      + match goal with
        | |- context [loopOf (pre'' ++ [flag]) ?st'] =>
            destruct (IH pre'' st') as (l & c & ->);
              [cbn [List.length] in Hlen; lia|]
        end.
        exited.
      + apply IH. cbn [List.length] in Hlen. lia. }
  destruct (String.eqb x "--line-start" || String.eqb x "-L")%bool.
  { destruct pre' as [|y pre'']; cbn [app].
    - rewrite Hdash. cbn [negb]. exited.
    - destruct (prefix "-" y); cbn [negb]; [exited|].
      destruct (parseInt y) as [m|]; [|exited].
      destruct (m <=? 0); [exited|].
      apply IH. cbn [List.length] in Hlen. lia. }
  destruct (String.eqb x "--line-end" || String.eqb x "-E")%bool.
  { destruct pre' as [|y pre'']; cbn [app].
    - rewrite Hdash. cbn [negb]. exited.
    - destruct (prefix "-" y); cbn [negb]; [exited|].
      destruct (parseInt y) as [m|]; [|exited].
      destruct (m <=? 0); [exited|].
      apply IH. cbn [List.length] in Hlen. lia. }
  apply IH. lia.
Qed.

(** A command line that ends with a flag that takes a value never gets
    past the argument loop: the script exits, whatever precedes the flag
    (the flag cannot serve as the value of an earlier flag either, since
    it starts with a dash). *)
Theorem trailing_value_flag_exits (pre : list string) (flag : string) :
  In flag valueFlags ->
  exists log exitCode, parse (pre ++ [flag]) = Exited log exitCode.
Proof.
  intros Hin. unfold parseArguments.
  destruct (existsb (String.eqb "-h") (pre ++ [flag])
            || existsb (String.eqb "--help") (pre ++ [flag]))%bool;
    [exited|].
  destruct (parseLoop_trailing flag (List.length pre) Hin pre initialArgs)
    as (l & c & E); [lia|].
  cbn [bindProc]. rewrite E. eauto.
Qed.

Lemma resolve_Running (a : Args) (log : list LogEntry) (r : Resolved) :
  resolve a = Running log r ->
  parsedArgs r = a /\
  filePath r = nth_error (positionalArgs a) 0 /\
  (forall e, parsedLineEnd a = Some e ->
     exists s, parsedLineStart a = Some s /\ s <= e) /\
  match selectionTextFromArg a with
  | Some selection =>
      exists file content warnings span,
        filePath r = Some file /\ truthy file = true /\
        readFile file = inl content /\
        getSelectionPosition content selection (parsedLineStart a)
        = Ok (warnings, Some span) /\
        finalLineStart r = Some (startLine span) /\
        finalLineEnd r = Some (endLine span)
  | None =>
      finalLineStart r = parsedLineStart a /\
      finalLineEnd r = parsedLineEnd a /\
      (parsedLineStart a <> None -> filePath r <> None)
  end.
Proof.
  unfold resolveLineRange. cbv zeta. intros H.
  apply bindProc_Running in H as (l1 & u1 & l1' & _ & H & _).
  apply bindProc_Running in H as (l2 & u2 & l2' & H2 & H & _).
  apply bindProc_Running in H as (l3 & u3 & l3' & H3 & H & _).
  assert (Hrange : forall e, parsedLineEnd a = Some e ->
            exists s, parsedLineStart a = Some s /\ s <= e).
  { intros e He. rewrite He in H2, H3.
    destruct (parsedLineStart a) as [s|]; [|proc_reduce H2; discriminate].
    exists s. split; [reflexivity|].
    destruct (e <? s) eqn:E; [proc_reduce H3; discriminate|lia]. }
  clear H2 H3.
  destruct (selectionTextFromArg a) as [selection|].
  - destruct (nth_error (positionalArgs a) 0) as [file|] eqn:Ep;
      [|proc_reduce H; discriminate].
    destruct (truthy file) eqn:T; [|proc_reduce H; discriminate].
    apply bindProc_Running in H as (l4 & u4 & l4' & _ & H & _).
    destruct (readFile file) as [content|msg] eqn:R;
      [|proc_reduce H; discriminate].
    destruct (getSelectionPosition content selection (parsedLineStart a))
      as [[warnings [span|]]| |] eqn:G;
      try (proc_reduce H; discriminate).
    apply bindProc_Running in H as (l5 & u5 & l5' & _ & H & _).
    apply bindProc_Running in H as (l6 & u6 & l6' & _ & H & _).
    injection H as _ <-. cbn [parsedArgs filePath finalLineStart finalLineEnd].
    repeat split; try assumption.
    exists file, content, warnings, span. repeat split; assumption.
  - destruct (parsedLineStart a) as [s|] eqn:Es.
    + destruct (nth_error (positionalArgs a) 0) as [file|] eqn:Ep;
        [|proc_reduce H; discriminate].
      injection H as _ <-.
      cbn [parsedArgs filePath finalLineStart finalLineEnd].
      repeat split; try assumption; try reflexivity. discriminate.
    + injection H as _ <-.
      cbn [parsedArgs filePath finalLineStart finalLineEnd].
      repeat split; try assumption; try reflexivity. congruence.
Qed.

Lemma front_Running (rawArgs : list string) (log : list LogEntry)
    (r : Resolved) :
  front rawArgs = Running log r ->
  exists log1 log2 a,
    parse rawArgs = Running log1 a /\ resolve a = Running log2 r.
Proof.
  unfold mainLineRange. intros H.
  apply bindProc_Running in H as (l1 & a & l2 & H1 & H2 & _).
  exists l1, l2, a. auto.
Qed.

(** The line range that [main] carries to the construction of the URL is
    well formed: an end line comes with a start line, both are positive,
    the start is not after the end, and a start line comes with a file
    path.  This holds for the range given by the flags and for the range
    of a selection that was found. *)
Theorem final_line_range_well_formed (rawArgs : list string)
    (log : list LogEntry) (r : Resolved) :
  front rawArgs = Running log r ->
  (forall e, finalLineEnd r = Some e ->
     exists s, finalLineStart r = Some s /\ 1 <= s <= e) /\
  (forall s, finalLineStart r = Some s ->
     1 <= s /\ filePath r <> None).
Proof.
  intros H. apply front_Running in H as (l1 & l2 & a & Hp & Hr).
  apply parse_valid in Hp as (_ & _ & Hls & Hle).
  apply resolve_Running in Hr as (_ & Hpath & Hrange & Hsel).
  destruct (selectionTextFromArg a) as [selection|].
  - destruct Hsel as (file & content & warnings & span
                      & Hf & _ & _ & G & Hs & He).
    pose proof (span_lines_within _ _ _ _ _ G) as (B1 & B2 & _ & _).
    rewrite Hs, He, Hf. split.
    + intros e [= <-]. exists (startLine span). split; [reflexivity|lia].
    + intros s [= <-]. split; [lia|discriminate].
  - destruct Hsel as (Hs & He & Hfile). rewrite Hs, He. split.
    + intros e Hee. destruct (Hrange e Hee) as (s & Hss & Hle').
      exists s. split; [exact Hss|]. specialize (Hls s Hss). lia.
    + intros s Hss. split; [exact (Hls s Hss)|].
      apply Hfile. congruence.
Qed.

(** When a selection was given and [main] goes on, the final line range
    is the span that the locator found in the file named on the command
    line, searched with the value of [--line-start] as its hint; that
    hint is positive, and the range lies within the file. *)
Theorem selection_sets_line_range (rawArgs : list string)
    (log : list LogEntry) (r : Resolved) (selection : string) :
  front rawArgs = Running log r ->
  selectionTextFromArg (parsedArgs r) = Some selection ->
  exists file content warnings span,
    filePath r = Some file /\ readFile file = inl content /\
    getSelectionPosition content selection
      (parsedLineStart (parsedArgs r)) = Ok (warnings, Some span) /\
    finalLineStart r = Some (startLine span) /\
    finalLineEnd r = Some (endLine span) /\
    endLine span <= fileLen (linesOf content) /\
    (forall h, parsedLineStart (parsedArgs r) = Some h -> 1 <= h).
Proof.
  intros H Hsel. apply front_Running in H as (l1 & l2 & a & Hp & Hr).
  apply parse_valid in Hp as (_ & _ & Hls & _).
  apply resolve_Running in Hr as (Ha & _ & _ & Hcase).
  rewrite Ha in Hsel. rewrite Hsel in Hcase.
  destruct Hcase as (file & content & warnings & span
                     & Hf & _ & R & G & Hs & He).
  exists file, content, warnings, span. rewrite Ha.
  pose proof (span_lines_within _ _ _ _ _ G) as (_ & _ & B & _).
  repeat split; assumption.
Qed.

End CommandLineFacts.

Lemma parsed_arguments_valid_witness : validArgs sampleTrim sampleArgs.
Proof.
  apply (parsed_arguments_valid "help"%string sampleParseInt sampleTrim
           sampleCommandLine [] sampleArgs).
  vm_compute. reflexivity.
Defined.

Lemma trailing_value_flag_exits_witness :
  exists log exitCode,
    parseArguments "help"%string sampleParseInt sampleTrim
      (["notes.txt"; "-L"; "2"]%string ++ ["-s"%string])%list
    = Exited log exitCode.
Proof.
  apply (trailing_value_flag_exits "help"%string sampleParseInt sampleTrim
           ["notes.txt"; "-L"; "2"]%string "-s"%string).
  vm_compute. tauto.
Defined.

Lemma final_line_range_well_formed_witness :
  (forall e, finalLineEnd sampleResolved = Some e ->
     exists s, finalLineStart sampleResolved = Some s /\ 1 <= s <= e) /\
  (forall s, finalLineStart sampleResolved = Some s ->
     1 <= s /\ filePath sampleResolved <> None).
Proof.
  eapply (final_line_range_well_formed "help"%string sampleParseInt
            sampleTrim sampleNumberToString sampleReadFile
            "TypeError"%string sampleCommandLine _ sampleResolved).
  vm_compute. reflexivity.
Defined.

Lemma selection_sets_line_range_witness :
  exists file content warnings span,
    filePath sampleResolved = Some file /\
    sampleReadFile file = inl content /\
    getSelectionPosition content "a"%string
      (parsedLineStart (parsedArgs sampleResolved))
    = Ok (warnings, Some span) /\
    finalLineStart sampleResolved = Some (startLine span) /\
    finalLineEnd sampleResolved = Some (endLine span) /\
    endLine span <= fileLen (linesOf content) /\
    (forall h, parsedLineStart (parsedArgs sampleResolved) = Some h ->
               1 <= h).
Proof.
  eapply (selection_sets_line_range "help"%string sampleParseInt
            sampleTrim sampleNumberToString sampleReadFile
            "TypeError"%string sampleCommandLine _ sampleResolved
            "a"%string).
  - vm_compute. reflexivity.
  - reflexivity.
Defined.
